(** * cgi-process-pool: the two sample TCP services, [search.c] and [auth.c]

    A shallow embedding of [src/.samples/c/search.c] (the Query Responder)
    and [src/discovery/samples/c/auth.c] (the Token Issuer), and the
    properties of their request parsing, response formatting, token
    generation and accept loop.

    Conventions.
    - A C [char] is an [ascii]; a C array is a [list ascii] of the array's
      size; an [int], a [long] and a pointer offset are a [Z].
    - A write through an index is [store], a read is [load]; both fail
      ([None]) outside the array, so a run that returns [Some] performed no
      access out of bounds.
    - The operating system and the C library are not part of the
      repository: what they hand to the program (received bytes, results
      of system calls, process identifier, clock, stack contents of
      uninitialised arrays, raw pseudo-random numbers) is an input of the
      model. *)

From Stdlib Require Import ZArith Ascii String Lia.
From stdpp Require Import base option list numbers strings.

Open Scope Z_scope.

(** ** C characters, literals and arrays *)

Definition NUL : ascii := "000"%char.
Definition dquote : ascii := "034"%char.
Definition CR : ascii := "013"%char.
Definition LF : ascii := "010"%char.

(** [c_lit] reads a C string literal.  The escapes [\r] and [\n] are the
    C ones; a double quote character of the C source is written as an
    apostrophe here, the sources containing no apostrophe. *)
Fixpoint c_escapes (s : list ascii) : list ascii :=
  match s with
  | "\"%char :: "r"%char :: s' => CR :: c_escapes s'
  | "\"%char :: "n"%char :: s' => LF :: c_escapes s'
  | "'"%char :: s' => dquote :: c_escapes s'
  | c :: s' => c :: c_escapes s'
  | [] => []
  end.

Definition c_lit (s : string) : list ascii :=
  c_escapes (list_ascii_of_string s).

(** [char a[n] = "lit"]: the literal, then zero bytes up to the size. *)
Definition array_init (n : nat) (lit : list ascii) : list ascii :=
  take n (lit ++ replicate n NUL).

(** [char a[n];] without initialiser: [n] bytes of whatever the stack
    holds, [junk] being those bytes. *)
Definition array_uninit (n : nat) (junk : list ascii) : list ascii :=
  take n (junk ++ replicate n NUL).

Definition load (a : list ascii) (i : Z) : option ascii :=
  if bool_decide (0 ≤ i) then a !! Z.to_nat i else None.

Definition store (a : list ascii) (i : Z) (c : ascii) : option (list ascii) :=
  if bool_decide (0 ≤ i < Z.of_nat (length a))
  then Some (<[Z.to_nat i := c]> a)
  else None.

(** ** C library: strings *)

(** The characters before the first zero byte. *)
Fixpoint until_nul (s : list ascii) : list ascii :=
  match s with
  | [] => []
  | c :: s' => if bool_decide (c = NUL) then [] else c :: until_nul s'
  end.

(** The C string that the pointer [a + p] designates. *)
Definition c_str (a : list ascii) (p : Z) : list ascii :=
  until_nul (drop (Z.to_nat p) a).

Definition strlen (a : list ascii) (p : Z) : Z :=
  Z.of_nat (length (c_str a p)).

(** Index of the first occurrence of [needle] in [s]. *)
Fixpoint find_sub (needle s : list ascii) : option nat :=
  if bool_decide (needle `prefix_of` s) then Some 0%nat
  else match s with
       | [] => None
       | _ :: s' => S <$> find_sub needle s'
       end.

(** [strstr(a + p, needle)]: a pointer to the first occurrence of
    [needle] in the C string at [a + p], or the null pointer. *)
Definition strstr (a : list ascii) (p : Z) (needle : list ascii) : option Z :=
  (λ k : nat, p + Z.of_nat k) <$> find_sub needle (c_str a p).

(** ** C library: formatted output *)

(** The value of a [w]-bit two's complement integer holding [n]. *)
Definition sint (w : Z) (n : Z) : Z :=
  (n + 2 ^ (w - 1)) `mod` 2 ^ w - 2 ^ (w - 1).

Definition digit_char (d : Z) : ascii := ascii_of_nat (48 + Z.to_nat d).

(** Decimal digits of [n ≥ 0], most significant first, in front of [acc];
    [fuel] is the number of divisions allowed. *)
Fixpoint digits (fuel : nat) (n : Z) (acc : list ascii) : list ascii :=
  let acc' := digit_char (n `mod` 10) :: acc in
  match fuel with
  | O => acc'
  | S fuel' => if bool_decide (n < 10) then acc' else digits fuel' (n / 10) acc'
  end.

(** What [%d] and [%ld] print. *)
Definition print_dec (n : Z) : list ascii :=
  if bool_decide (n < 0)
  then "-"%char :: digits (Z.to_nat (Z.log2 (- n))) (- n) []
  else digits (Z.to_nat (Z.log2 n)) n [].

(** The number a string of decimal digits denotes. *)
Definition dec_value (s : list ascii) : Z :=
  fold_left (λ v c, 10 * v + (Z.of_nat (nat_of_ascii c) - 48)) s 0.

Inductive fmt_arg :=
| ArgStr (s : list ascii)
| ArgInt (n : Z)
| ArgLong (n : Z).

(** The text a [printf]-family call produces, for the three conversions
    the sources use. *)
Fixpoint format (fmt : list ascii) (args : list fmt_arg) : list ascii :=
  match fmt with
  | "%"%char :: "s"%char :: fmt' =>
      match args with
      | ArgStr s :: args' => s ++ format fmt' args'
      | _ => []
      end
  | "%"%char :: "d"%char :: fmt' =>
      match args with
      | ArgInt n :: args' => print_dec (sint 32 n) ++ format fmt' args'
      | _ => []
      end
  | "%"%char :: "l"%char :: "d"%char :: fmt' =>
      match args with
      | ArgLong n :: args' => print_dec (sint 64 n) ++ format fmt' args'
      | _ => []
      end
  | c :: fmt' => c :: format fmt' args
  | [] => []
  end.

Fixpoint store_all (a : list ascii) (i : Z) (s : list ascii)
  : option (list ascii) :=
  match s with
  | [] => Some a
  | c :: s' => a' ← store a i c; store_all a' (i + 1) s'
  end.

(** [snprintf(buf, size, fmt, args...)]: at most [size - 1] characters of
    the formatted text, then a zero byte. *)
Definition snprintf (buf : list ascii) (size : Z) (fmt : list ascii)
    (args : list fmt_arg) : option (list ascii) :=
  if bool_decide (0 < size)
  then store_all buf 0 (take (Z.to_nat (size - 1)) (format fmt args) ++ [NUL])
  else Some buf.

(** [perror(msg)] writes the message, a colon and the text of the error. *)
Definition perror (msg reason : list ascii) : list ascii :=
  msg ++ c_lit ": " ++ reason ++ c_lit "\n".

(** [atoi], as the C library computes it, [(int) strtol(s, NULL, 10)]:
    white space, an optional sign, then decimal digits; a number outside
    the range of [long] is replaced by the nearest bound, and the result
    is converted to [int]. *)
Definition is_digit (c : ascii) : bool :=
  bool_decide (48 ≤ nat_of_ascii c ≤ 57)%nat.

(** [isspace] in the C locale: space, and the control characters from
    the horizontal tab to the carriage return. *)
Definition isspace (c : ascii) : bool :=
  bool_decide (nat_of_ascii c = 32 ∨ 9 ≤ nat_of_ascii c ≤ 13)%nat.

Fixpoint atoi_digits (s : list ascii) (v : Z) : Z :=
  match s with
  | c :: s' =>
      if is_digit c then atoi_digits s' (10 * v + (Z.of_nat (nat_of_ascii c) - 48))
      else v
  | [] => v
  end.

(** The nearest value in the range of [long]. *)
Definition saturate (v : Z) : Z := Z.max (- 2 ^ 63) (Z.min (2 ^ 63 - 1) v).

Fixpoint strtol (s : list ascii) : Z :=
  match s with
  | c :: s' =>
      if isspace c then strtol s'
      else if bool_decide (c = "-"%char) then saturate (- atoi_digits s' 0)
      else if bool_decide (c = "+"%char) then saturate (atoi_digits s' 0)
      else saturate (atoi_digits s 0)
  | [] => 0
  end.

Definition atoi (s : list ascii) : Z := sint 32 (strtol s).

(** ** C library: [rand] and [srand] *)

(** The generator is the C library's: [srand seed] is the state after
    seeding, [rand] returns a raw number and the next state. *)
Class RandGen (G : Type) := {
  srand : Z → G;
  rand : G → Z * G
}.

(** ** Operating system *)

(** What one [recv] call delivers: a failure, or some bytes. *)
Inductive recv_result :=
| RecvFailed
| Received (data : list ascii).

(** [recv(fd, buffer, len, 0)] stores at most [len] bytes at the start
    of [buffer] and returns their number, or -1. *)
Definition recv (buffer : list ascii) (len : nat) (r : recv_result)
  : Z * list ascii :=
  match r with
  | RecvFailed => (-1, buffer)
  | Received data =>
      let got := take (Nat.min len (length buffer)) data in
      (Z.of_nat (length got), got ++ drop (length got) buffer)
  end.

(** The result of a system call and the text of the error it left. *)
Record sys_result := { ret : Z; reason : list ascii }.

(** What the system answers during start-up. *)
Record boot := {
  boot_pid : Z;
  boot_time : Z;
  r_socket : sys_result;
  r_setsockopt : sys_result;
  r_bind : sys_result;
  r_listen : sys_result
}.

(** What the system answers during one turn of the accept loop. *)
Record turn := {
  r_accept : Z;
  r_recv : recv_result;
  now : Z;
  junk_token : list ascii;
  junk_body : list ascii;
  junk_response : list ascii
}.

(** What the process does to the outside, in order. *)
Inductive event :=
| Stderr (text : list ascii)
| Stdout (text : list ascii)
| Signal (signum : Z)
| Srand (seed : Z)
| Socket (result : Z)
| Setsockopt (fd result : Z)
| Bind (fd port result : Z)
| Listen (fd backlog result : Z)
| Accept (fd result : Z)
| Recv (fd : Z) (result : Z)
| Send (fd : Z) (bytes : list ascii)
| Close (fd : Z).

(** How a finite run ends: the process has exited, or it is still in the
    accept loop, about to call [accept] again. *)
Inductive outcome :=
| Exited (status : Z)
| Accepting.

Definition SIGINT : Z := 2.
Definition SIGTERM : Z := 15.

(** [char buffer[1024] = {0}; recv(client_socket, buffer, sizeof(buffer) - 1, 0);] *)
Definition request_buffer (r : recv_result) : list ascii :=
  (recv (replicate 1024 NUL) 1023 r).2.

(** The request as the program sees it: the C string in the buffer. *)
Definition request_text (r : recv_result) : list ascii :=
  c_str (request_buffer r) 0.

(** The value [recv] returns for the request. *)
Definition recv_count (r : recv_result) : Z :=
  (recv (replicate 1024 NUL) 1023 r).1.

(** ** Parameter extraction ([main], both programs)

    [search.c] lines 85-99 and [auth.c] lines 97-111 are the same code up
    to the field marker ("q=" / "user="), the number of characters skipped
    after it (2 / 5) and the initial value ("default" / "anonymous"). *)

Definition is_delim (c : ascii) : bool :=
  bool_decide (c = NUL) || bool_decide (c = " "%char) || bool_decide (c = "&"%char).

(** The loop
    [while (p[i] && p[i] != ' ' && p[i] != '&' && i < 255) { query[i] = p[i]; i++; }]
    with [p = buffer + q_param].  [fuel] bounds the number of iterations. *)
Fixpoint copy_loop (fuel : nat) (buffer : list ascii) (q_param : Z)
    (i : Z) (query : list ascii) : option (Z * list ascii) :=
  c ← load buffer (q_param + i);
  if negb (is_delim c) && bool_decide (i < 255) then
    match fuel with
    | O => None
    | S fuel' =>
        query' ← store query i c;
        copy_loop fuel' buffer q_param (i + 1) query'
    end
  else Some (i, query).

Definition extract (marker : list ascii) (skip : Z) (default : list ascii)
    (buffer : list ascii) : option (list ascii) :=
  let query_start := strstr buffer 0 (c_lit "GET ") in
  let query := array_init 256 default in
  match query_start with
  | Some query_start =>
      match strstr buffer query_start marker with
      | Some q_param =>
          let q_param := q_param + skip in
          '(i, query) ← copy_loop 256 buffer q_param 0 query;
          store query i NUL
      | None => Some query
      end
  | None => Some query
  end.

(** Whether the extraction leaves the initial value in place: the outcome
    of the tests [if (query_start)] and [if (q_param)]. *)
Definition keeps_default (marker buffer : list ascii) : bool :=
  match strstr buffer 0 (c_lit "GET ") with
  | Some query_start =>
      match strstr buffer query_start marker with
      | Some q_param => false
      | None => true
      end
  | None => true
  end.

(** The parameter a request yields: the C string in the array that the
    extraction leaves, which is what [send_response] is given. *)
Definition parameter (marker : list ascii) (skip : Z) (default : list ascii)
    (r : recv_result) : option (list ascii) :=
  (λ query, c_str query 0) <$> extract marker skip default (request_buffer r).

(** The accept loop, [while (1) { ... }], over the answers of as many
    turns as the run lasts.  A turn whose body returns [None] stops the
    run with a memory fault. *)
Fixpoint accept_loop {S : Type}
    (body : turn → S → option (list event * S))
    (turns : list turn) (s : S) : option (list event * S) :=
  match turns with
  | [] => Some ([], s)
  | t :: turns' =>
      '(ev, s') ← body t s;
      '(ev', s'') ← accept_loop body turns' s';
      Some (ev ++ ev', s'')
  end.

(** The part of [main] both programs share, from [socket] to [listen]
    (search.c lines 44-72, auth.c lines 56-84): the events, and the
    listening socket and port unless the process exits. *)
Definition listen_on (b : boot) (argv1 : list ascii)
  : list event * (Z * Z + Z) :=
  let port := atoi argv1 in
  let server_socket := ret (r_socket b) in
  if bool_decide (server_socket < 0) then
    ([Socket server_socket;
      Stderr (perror (c_lit "Socket creation failed") (reason (r_socket b)))],
     inr 1)
  else if bool_decide (ret (r_setsockopt b) < 0) then
    ([Socket server_socket;
      Setsockopt server_socket (ret (r_setsockopt b));
      Stderr (perror (c_lit "Setsockopt failed") (reason (r_setsockopt b)))],
     inr 1)
  else if bool_decide (ret (r_bind b) < 0) then
    ([Socket server_socket;
      Setsockopt server_socket (ret (r_setsockopt b));
      Bind server_socket (port `mod` 65536) (ret (r_bind b));
      Stderr (perror (c_lit "Bind failed") (reason (r_bind b)))],
     inr 1)
  else if bool_decide (ret (r_listen b) < 0) then
    ([Socket server_socket;
      Setsockopt server_socket (ret (r_setsockopt b));
      Bind server_socket (port `mod` 65536) (ret (r_bind b));
      Listen server_socket 10 (ret (r_listen b));
      Stderr (perror (c_lit "Listen failed") (reason (r_listen b)))],
     inr 1)
  else
    ([Socket server_socket;
      Setsockopt server_socket (ret (r_setsockopt b));
      Bind server_socket (port `mod` 65536) (ret (r_bind b));
      Listen server_socket 10 (ret (r_listen b))],
     inl (server_socket, port)).

(** ** The Query Responder, [search.c] *)

Module Search.

Definition send_response (t : turn) (pid : Z) (client_socket : Z)
    (query : list ascii) : option event :=
  let body := array_uninit 512 (junk_body t) in
  let response := array_uninit 1024 (junk_response t) in
  body ← snprintf body 512
    (c_lit "{'query': '%s', 'results': ['result1', 'result2', 'result3'], 'pid': %d, 'timestamp': %ld}")
    [ArgStr (c_str query 0); ArgInt pid; ArgLong (now t)];
  response ← snprintf response 1024
    (c_lit "HTTP/1.1 200 OK\r\nContent-Type: application/json\r\nContent-Length: %ld\r\nConnection: close\r\n\r\n%s")
    [ArgLong (strlen body 0); ArgStr (c_str body 0)];
  Some (Send client_socket (take (Z.to_nat (strlen response 0)) response)).

(** One turn of the loop, lines 77-102. *)
Definition serve (server_socket pid : Z) (t : turn) (s : unit)
  : option (list event * unit) :=
  let client_socket := r_accept t in
  if bool_decide (client_socket < 0) then
    Some ([Accept server_socket client_socket], s)
  else
    let buffer := replicate 1024 NUL in
    let '(n, buffer) := recv buffer 1023 (r_recv t) in
    query ← extract (c_lit "q=") 2 (c_lit "default") buffer;
    sent ← send_response t pid client_socket query;
    Some ([Accept server_socket client_socket; Recv client_socket n;
           sent; Close client_socket], s).

Definition query_of : recv_result → option (list ascii) :=
  parameter (c_lit "q=") 2 (c_lit "default").

Definition main (argv0 : list ascii) (args : list (list ascii))
    (b : boot) (turns : list turn) : option (list event * outcome) :=
  match args with
  | [argv1] =>
      let start := [Signal SIGTERM; Signal SIGINT] in
      match listen_on b argv1 with
      | (ev, inr status) => Some (start ++ ev, Exited status)
      | (ev, inl (server_socket, port)) =>
          let hello :=
            Stdout (format (c_lit "Search CGI process %d listening on port %d\n")
                      [ArgInt (boot_pid b); ArgInt port]) in
          '(served, _) ← accept_loop (serve server_socket (boot_pid b)) turns ();
          Some (start ++ ev ++ hello :: served, Accepting)
      end
  | _ =>
      Some ([Stderr (format (c_lit "Usage: %s <port>\n") [ArgStr argv0])],
            Exited 1)
  end.

End Search.

(** ** The Token Issuer, [auth.c] *)

Module Auth.
Section WithGenerator.
Context {G : Type} `{RandGen G}.

(** [const char charset[] = "..."]: 62 characters and the final zero. *)
Definition charset : list ascii :=
  array_init 63
    (c_lit "abcdefghijklmnopqrstuvwxyzABCDEFGHIJKLMNOPQRSTUVWXYZ0123456789").

(** [charset[r % (sizeof(charset) - 1)]] for the raw number [r]: the
    [int] is converted to the unsigned 64-bit type of [sizeof]. *)
Definition pick (r : Z) : option ascii :=
  load charset ((r `mod` 2 ^ 64) `mod` (Z.of_nat (length charset) - 1)).

(** [for (int i = 0; i < len - 1; i++) token[i] = charset[rand() % ...];] *)
Fixpoint token_loop (fuel : nat) (token : list ascii) (len i : Z) (g : G)
  : option (list ascii * G) :=
  if bool_decide (i < len - 1) then
    match fuel with
    | O => None
    | S fuel' =>
        let '(r, g') := rand g in
        c ← pick r;
        token' ← store token i c;
        token_loop fuel' token' len (i + 1) g'
    end
  else Some (token, g).

Definition generate_token (token : list ascii) (len : Z) (g : G)
  : option (list ascii * G) :=
  '(token, g) ← token_loop (Z.to_nat len) token len 0 g;
  token ← store token (len - 1) NUL;
  Some (token, g).

Definition send_response (t : turn) (pid : Z) (client_socket : Z)
    (user : list ascii) (g : G) : option (event * G) :=
  let token := array_uninit 33 (junk_token t) in
  '(token, g) ← generate_token token 33 g;
  let body := array_uninit 512 (junk_body t) in
  let response := array_uninit 1024 (junk_response t) in
  body ← snprintf body 512
    (c_lit "{'user': '%s', 'token': '%s', 'pid': %d, 'expires': %ld}")
    [ArgStr (c_str user 0); ArgStr (c_str token 0); ArgInt pid;
     ArgLong (sint 64 (now t + 3600))];
  response ← snprintf response 1024
    (c_lit "HTTP/1.1 200 OK\r\nContent-Type: application/json\r\nContent-Length: %ld\r\nConnection: close\r\n\r\n%s")
    [ArgLong (strlen body 0); ArgStr (c_str body 0)];
  Some (Send client_socket (take (Z.to_nat (strlen response 0)) response), g).

(** One turn of the loop, lines 89-114. *)
Definition serve (server_socket pid : Z) (t : turn) (g : G)
  : option (list event * G) :=
  let client_socket := r_accept t in
  if bool_decide (client_socket < 0) then
    Some ([Accept server_socket client_socket], g)
  else
    let buffer := replicate 1024 NUL in
    let '(n, buffer) := recv buffer 1023 (r_recv t) in
    user ← extract (c_lit "user=") 5 (c_lit "anonymous") buffer;
    '(sent, g) ← send_response t pid client_socket user g;
    Some ([Accept server_socket client_socket; Recv client_socket n;
           sent; Close client_socket], g).

Definition user_of : recv_result → option (list ascii) :=
  parameter (c_lit "user=") 5 (c_lit "anonymous").

Definition main (argv0 : list ascii) (args : list (list ascii))
    (b : boot) (turns : list turn) : option (list event * outcome) :=
  match args with
  | [argv1] =>
      let seed := Z.lxor (boot_time b) (boot_pid b) `mod` 2 ^ 32 in
      let start := [Signal SIGTERM; Signal SIGINT; Srand seed] in
      match listen_on b argv1 with
      | (ev, inr status) => Some (start ++ ev, Exited status)
      | (ev, inl (server_socket, port)) =>
          let hello :=
            Stdout (format (c_lit "Auth CGI process %d listening on port %d\n")
                      [ArgInt (boot_pid b); ArgInt port]) in
          '(served, _) ← accept_loop (serve server_socket (boot_pid b)) turns (srand seed);
          Some (start ++ ev ++ hello :: served, Accepting)
      end
  | _ =>
      Some ([Stderr (format (c_lit "Usage: %s <port>\n") [ArgStr argv0])],
            Exited 1)
  end.

End WithGenerator.
End Auth.

(** A linear congruential generator in the style of the C standard's
    sample [rand], with 31-bit results. *)
Definition lcg_next (s : Z) : Z := (s * 1103515245 + 12345) `mod` 2 ^ 31.

#[export] Instance lcg : RandGen Z := {
  srand seed := seed `mod` 2 ^ 31;
  rand s := (lcg_next s, lcg_next s)
}.

(** ** Vocabulary of the specification *)

(** [needle] occurs in [text] at index [i]. *)
Definition occurs_at (needle text : list ascii) (i : nat) : Prop :=
  needle `prefix_of` drop i text.

#[global] Instance occurs_at_dec needle text i :
  Decision (occurs_at needle text i).
Proof. unfold occurs_at. apply _. Defined.

Definition absent (needle text : list ascii) : Prop :=
  ∀ i, ¬ occurs_at needle text i.

(** [i] is the first index at or after [from] where [needle] occurs. *)
Definition first_from (needle text : list ascii) (from i : nat) : Prop :=
  (from ≤ i)%nat ∧ occurs_at needle text i ∧
  ∀ j, (from ≤ j < i)%nat → ¬ occurs_at needle text j.

(** [v] is the characters at the start of [after] up to, but not
    including, the first space, the first '&' or the end of the text, and
    at most 255 of them. *)
Definition value_of (after v : list ascii) : Prop :=
  ∃ tail,
    after = v ++ tail ∧
    Forall (λ c, c ≠ " "%char ∧ c ≠ "&"%char) v ∧
    (length v ≤ 255)%nat ∧
    (length v = 255%nat ∨ tail = [] ∨
     ∃ c tail', tail = c :: tail' ∧ (c = " "%char ∨ c = "&"%char)).

(** The same as a function: the characters before the first delimiter. *)
Fixpoint upto_delim (s : list ascii) : list ascii :=
  match s with
  | [] => []
  | c :: s' => if is_delim c then [] else c :: upto_delim s'
  end.

(** What the extraction computes, on the text of the request. *)
Definition param_of (marker default text : list ascii) : list ascii :=
  match find_sub (c_lit "GET ") text with
  | Some g =>
      match find_sub marker (drop g text) with
      | Some k => take 255 (upto_delim (drop (g + k + length marker) text))
      | None => default
      end
  | None => default
  end.

(** The response around a body: status line, the three header lines
    with [digits] as the value of Content-Length, the blank line, the
    body. *)
Definition http_response (digits body : list ascii) : list ascii :=
  c_lit "HTTP/1.1 200 OK\r\nContent-Type: application/json\r\nContent-Length: "
  ++ digits ++ c_lit "\r\nConnection: close\r\n\r\n" ++ body.

(** The Query Responder's body as [search.c] line 20 writes it. *)
Definition query_json (q : list ascii) (pid timestamp : Z) : list ascii :=
  c_lit "{'query': '" ++ q
  ++ c_lit "', 'results': ['result1', 'result2', 'result3'], 'pid': "
  ++ print_dec pid ++ c_lit ", 'timestamp': " ++ print_dec timestamp
  ++ c_lit "}".

(** The Query Responder's body as the specification prints its shape. *)
Definition query_json_spec (q : list ascii) (pid timestamp : Z) : list ascii :=
  c_lit "{'query': '" ++ q
  ++ c_lit "', 'results': ['result1','result2','result3'], 'pid': "
  ++ print_dec pid ++ c_lit ", 'timestamp': " ++ print_dec timestamp
  ++ c_lit "}".

(** The Token Issuer's body; here [auth.c] line 31 and the specification
    agree. *)
Definition token_json (user token : list ascii) (pid expires : Z)
  : list ascii :=
  c_lit "{'user': '" ++ user ++ c_lit "', 'token': '" ++ token
  ++ c_lit "', 'pid': " ++ print_dec pid ++ c_lit ", 'expires': "
  ++ print_dec expires ++ c_lit "}".

(** A letter of either case or a digit. *)
Definition is_alnum (c : ascii) : bool :=
  let n := nat_of_ascii c in
  bool_decide (48 ≤ n ≤ 57)%nat || bool_decide (65 ≤ n ≤ 90)%nat
  || bool_decide (97 ≤ n ≤ 122)%nat.

(** The events of one turn of the loop as the specification orders them:
    a failed [accept] and nothing else, or [accept], [recv], the response
    and [close] on the accepted socket. *)
Inductive turn_events (server_socket : Z) : list event → Prop :=
| turn_failed fd :
    fd < 0 → turn_events server_socket [Accept server_socket fd]
| turn_served fd n bytes :
    0 ≤ fd →
    turn_events server_socket
      [Accept server_socket fd; Recv fd n; Send fd bytes; Close fd].

(** A run of the loop is whole turns, one after the other. *)
Inductive sequential (server_socket : Z) : list event → Prop :=
| sequential_nil : sequential server_socket []
| sequential_turn ev rest :
    turn_events server_socket ev → sequential server_socket rest →
    sequential server_socket (ev ++ rest).

Definition is_accept (e : event) : bool :=
  match e with Accept _ _ => true | _ => false end.

Definition is_srand (e : event) : bool :=
  match e with Srand _ => true | _ => false end.

(** At least one of the four start-up calls fails. *)
Definition setup_fails (b : boot) : Prop :=
  ret (r_socket b) < 0 ∨ ret (r_setsockopt b) < 0 ∨
  ret (r_bind b) < 0 ∨ ret (r_listen b) < 0.

(** The message and the error text of the first start-up call that
    fails, in the order [socket], [setsockopt], [bind], [listen]. *)
Definition first_failure (b : boot) : list ascii * list ascii :=
  if bool_decide (ret (r_socket b) < 0)
  then (c_lit "Socket creation failed", reason (r_socket b))
  else if bool_decide (ret (r_setsockopt b) < 0)
  then (c_lit "Setsockopt failed", reason (r_setsockopt b))
  else if bool_decide (ret (r_bind b) < 0)
  then (c_lit "Bind failed", reason (r_bind b))
  else (c_lit "Listen failed", reason (r_listen b)).

(** The [n] numbers from [from] on. *)
Fixpoint raw_results (n : nat) (from : Z) : list Z :=
  match n with
  | O => []
  | S n' => from :: raw_results n' (from + 1)
  end.

(** The number of raw results in [0, rand_max] for which [generate_token]
    selects the character [c]; the probability of [c] is this number over
    [rand_max + 1] when the raw results are uniform. *)
Definition selections (rand_max : Z) (c : ascii) : Z :=
  Z.of_nat (length (filter (λ r, Auth.pick r = Some c)
                      (raw_results (Z.to_nat (rand_max + 1)) 0))).

(** ** Vocabulary of the further properties *)

(** The raw results of [n] successive calls of [rand], and the state of
    the generator after them. *)
Fixpoint draws {G : Type} `{RandGen G} (n : nat) (g : G) : list Z * G :=
  match n with
  | O => ([], g)
  | S n' =>
      let '(r, g') := rand g in
      let '(rs, g'') := draws n' g' in
      (r :: rs, g'')
  end.

(** The client sockets a trace accepts, answers and closes, in order. *)
Definition accepted (ev : list event) : list Z :=
  omap (λ e, match e with
             | Accept _ fd => if bool_decide (0 ≤ fd) then Some fd else None
             | _ => None
             end) ev.

Definition answered (ev : list event) : list Z :=
  omap (λ e, match e with Send fd _ => Some fd | _ => None end) ev.

Definition closed (ev : list event) : list Z :=
  omap (λ e, match e with Close fd => Some fd | _ => None end) ev.

(** At most one client socket is open, the responses went to accepted
    sockets in the order of their acceptance, and only answered sockets
    were closed. *)
Definition one_at_a_time (p : list event) : Prop :=
  closed p `prefix_of` answered p ∧ answered p `prefix_of` accepted p ∧
  (length (accepted p) ≤ S (length (closed p)))%nat.

(** An event of the start-up: it is on no client socket, and the only
    signals it names are SIGTERM and SIGINT. *)
Definition startup_event (e : event) : Prop :=
  match e with
  | Accept _ _ | Recv _ _ | Send _ _ | Close _ => False
  | Signal s => s = SIGTERM ∨ s = SIGINT
  | _ => True
  end.

(** ** Sample inputs *)

Definition req (s : string) : recv_result := Received (c_lit s).

Definition long_request : recv_result :=
  Received (c_lit "GET /?q=" ++ replicate 300 "a"%char ++ c_lit " HTTP/1.1").

Definition quiet_turn (fd : Z) (r : recv_result) : turn :=
  {| r_accept := fd; r_recv := r; now := 1700000000;
     junk_token := []; junk_body := c_lit "xyz"; junk_response := [] |}.

Definition quiet_boot : boot :=
  {| boot_pid := 4242; boot_time := 1700000000;
     r_socket := {| ret := 3; reason := [] |};
     r_setsockopt := {| ret := 0; reason := [] |};
     r_bind := {| ret := 0; reason := [] |};
     r_listen := {| ret := 0; reason := [] |} |}.

Definition failing_boot : boot :=
  {| boot_pid := 4242; boot_time := 1700000000;
     r_socket := {| ret := 3; reason := [] |};
     r_setsockopt := {| ret := 0; reason := [] |};
     r_bind := {| ret := -1; reason := c_lit "Address already in use" |};
     r_listen := {| ret := 0; reason := [] |} |}.

(** * Properties *)

(** ** The model at work *)

Example search_hello :
  Search.serve 3 4242
    (quiet_turn 4 (req "GET /search?q=hello HTTP/1.1\r\n\r\n")) ()
  = Some ([Accept 3 4; Recv 4 32;
           Send 4 (c_lit "HTTP/1.1 200 OK\r\nContent-Type: application/json\r\nContent-Length: 102\r\nConnection: close\r\n\r\n{'query': 'hello', 'results': ['result1', 'result2', 'result3'], 'pid': 4242, 'timestamp': 1700000000}");
           Close 4], ()).
Proof. by vm_compute. Qed.

Example auth_bob :
  Auth.serve 3 4242
    (quiet_turn 4 (req "GET /login?user=bob HTTP/1.1\r\n\r\n"))
    (srand (G := Z) 42)
  = Some ([Accept 3 4; Recv 4 32;
           Send 4 (c_lit "HTTP/1.1 200 OK\r\nContent-Type: application/json\r\nContent-Length: 96\r\nConnection: close\r\n\r\n{'user': 'bob', 'token': 'VoNWzYNMziDireBwtydwbK90Z4LAVKBm', 'pid': 4242, 'expires': 1700003600}");
           Close 4], 968547210).
Proof. by vm_compute. Qed.

Example search_no_marker :
  Search.query_of (req "GET /search HTTP/1.1\r\n\r\n") = Some (c_lit "default")
  ∧ Auth.user_of (req "GET /login HTTP/1.1\r\n\r\n") = Some (c_lit "anonymous")
  ∧ Search.query_of RecvFailed = Some (c_lit "default").
Proof. by vm_compute. Qed.

Example search_usage :
  Search.main (c_lit "./search") [] quiet_boot []
  = Some ([Stderr (c_lit "Usage: ./search <port>\n")], Exited 1).
Proof. by vm_compute. Qed.

(** ** Arrays and C strings *)

Lemma bind_Some {A B} (x : A) (f : A → option B) : Some x ≫= f = f x.
Proof. done. Qed.

Lemma load_drop (a : list ascii) (p : Z) c s :
  0 ≤ p → drop (Z.to_nat p) a = c :: s → load a p = Some c.
Proof.
  intros Hp Hd. unfold load. rewrite bool_decide_eq_true_2 by done.
  pose proof (lookup_drop a (Z.to_nat p) 0) as Hl.
  rewrite Hd, Nat.add_0_r in Hl. by rewrite <- Hl.
Qed.

Lemma drop_succ (a : list ascii) (p : Z) c s :
  0 ≤ p → drop (Z.to_nat p) a = c :: s → drop (Z.to_nat (p + 1)) a = s.
Proof.
  intros Hp Hd. replace (Z.to_nat (p + 1)) with (Z.to_nat p + 1)%nat by lia.
  by rewrite <- drop_drop, Hd.
Qed.

Lemma store_Some (a : list ascii) (i : Z) c :
  0 ≤ i < Z.of_nat (length a) → store a i c = Some (<[Z.to_nat i := c]> a).
Proof. intros Hi. unfold store. by rewrite bool_decide_eq_true_2. Qed.

Lemma until_nul_app (t rest : list ascii) :
  NUL ∉ t → until_nul (t ++ NUL :: rest) = t.
Proof.
  induction t as [|c t IH]; intros Hn; simpl.
  - done.
  - apply not_elem_of_cons in Hn as [Hc Ht].
    rewrite bool_decide_eq_false_2 by done. by rewrite IH.
Qed.

Lemma until_nul_no_nul (s : list ascii) : NUL ∉ until_nul s.
Proof.
  induction s as [|c s IH]; simpl; [apply not_elem_of_nil|].
  case_bool_decide; [apply not_elem_of_nil|].
  apply not_elem_of_cons. split; [congruence | done].
Qed.

Lemma until_nul_split (s : list ascii) :
  NUL ∈ s → ∃ rest, s = until_nul s ++ NUL :: rest.
Proof.
  induction s as [|c s IH]; intros Hin; [by apply elem_of_nil in Hin|].
  simpl. case_bool_decide as Hc.
  - exists s. by rewrite Hc.
  - apply elem_of_cons in Hin as [Heq | Hin]; [congruence|].
    destruct (IH Hin) as [rest Hrest]. exists rest. simpl. by rewrite <- Hrest.
Qed.

Lemma c_str_app (t rest : list ascii) (p : nat) :
  NUL ∉ t → (p ≤ length t)%nat →
  c_str (t ++ NUL :: rest) (Z.of_nat p) = drop p t.
Proof.
  intros Hn Hp. unfold c_str. rewrite Nat2Z.id, drop_app_le by done.
  apply until_nul_app. intros Hin. apply Hn.
  by eapply subseteq_drop.
Qed.

Lemma request_buffer_received data :
  request_buffer (Received data)
  = take 1023 data ++ replicate (1024 - length (take 1023 data)) NUL.
Proof.
  unfold request_buffer, recv. cbn [snd].
  rewrite length_replicate, drop_replicate.
  by replace (1023 `min` 1024)%nat with 1023%nat by lia.
Qed.

(** The buffer a request leaves is a C string followed by its zero byte:
    [recv] is asked for one byte less than the buffer holds. *)
Lemma request_buffer_shape r :
  length (request_buffer r) = 1024%nat
  ∧ (NUL ∉ request_text r)
  ∧ (length (request_text r) ≤ 1023)%nat
  ∧ (∃ rest, request_buffer r = request_text r ++ NUL :: rest).
Proof.
  assert (Hin : NUL ∈ request_buffer r ∧ length (request_buffer r) = 1024%nat).
  { destruct r as [|data].
    - unfold request_buffer, recv. cbn [snd]. rewrite length_replicate.
      split; [|done]. apply elem_of_replicate. by split.
    - rewrite request_buffer_received.
      pose proof (length_take data 1023) as Hl.
      split.
      + apply elem_of_app. right. apply elem_of_replicate. split; [done | lia].
      + rewrite length_app, length_replicate. lia. }
  destruct Hin as [Hin Hlen].
  destruct (until_nul_split _ Hin) as [rest Hrest].
  unfold request_text, c_str. rewrite drop_0.
  split; [done|]. split; [apply until_nul_no_nul|]. split; [|by exists rest].
  rewrite Hrest, length_app in Hlen. simpl in Hlen. lia.
Qed.

(** A request without zero byte and of at most 1023 bytes is seen as it
    was sent. *)
Lemma request_text_id data :
  NUL ∉ data → (length data ≤ 1023)%nat → request_text (Received data) = data.
Proof.
  intros Hn Hlen. unfold request_text, c_str.
  rewrite request_buffer_received, drop_0, take_ge by lia.
  replace (1024 - length data)%nat with (S (1023 - length data)) by lia.
  by apply until_nul_app.
Qed.

(** ** [strstr] finds the first occurrence *)

Lemma find_sub_unfold needle s :
  find_sub needle s =
  if bool_decide (needle `prefix_of` s) then Some 0%nat
  else match s with
       | [] => None
       | _ :: s' => S <$> find_sub needle s'
       end.
Proof. by destruct s. Qed.

Lemma occurs_at_0 needle s : occurs_at needle s 0 ↔ needle `prefix_of` s.
Proof. unfold occurs_at. by rewrite drop_0. Qed.

Lemma occurs_at_S needle c s j :
  occurs_at needle (c :: s) (S j) ↔ occurs_at needle s j.
Proof. done. Qed.

Lemma occurs_at_drop needle s g k :
  occurs_at needle (drop g s) k ↔ occurs_at needle s (g + k).
Proof. unfold occurs_at. by rewrite drop_drop. Qed.

Lemma occurs_at_length needle s i :
  needle ≠ [] → occurs_at needle s i → (i + length needle ≤ length s)%nat.
Proof.
  intros Hne Hocc. apply prefix_length in Hocc. rewrite length_drop in Hocc.
  destruct needle; [done|]. simpl in *. lia.
Qed.

Lemma find_sub_Some needle s i :
  find_sub needle s = Some i ↔ first_from needle s 0 i.
Proof.
  revert i. induction s as [|c s IH]; intros i; rewrite find_sub_unfold.
  - case_bool_decide as Hp.
    + split.
      * intros [= <-]. split; [lia|]. split; [by apply occurs_at_0 | lia].
      * intros (_ & _ & Hfirst). destruct i as [|i]; [done|].
        exfalso. apply (Hfirst 0%nat); [lia | by apply occurs_at_0].
    + split; [done|]. intros (_ & Hocc & _). exfalso. apply Hp.
      unfold occurs_at in Hocc. by rewrite drop_nil in Hocc.
  - case_bool_decide as Hp.
    + split.
      * intros [= <-]. split; [lia|]. split; [by apply occurs_at_0 | lia].
      * intros (_ & _ & Hfirst). destruct i as [|i]; [done|].
        exfalso. apply (Hfirst 0%nat); [lia | by apply occurs_at_0].
    + rewrite fmap_Some. split.
      * intros (i' & Hi' & ->). apply IH in Hi' as (_ & Hocc & Hfirst).
        split; [lia|]. split; [by apply occurs_at_S|].
        intros [|j] Hj; [by rewrite occurs_at_0|].
        rewrite occurs_at_S. apply Hfirst. lia.
      * intros (_ & Hocc & Hfirst). destruct i as [|i].
        { exfalso. by apply Hp, occurs_at_0. }
        exists i. split; [|done]. apply IH. split; [lia|].
        split; [by apply occurs_at_S in Hocc|].
        intros j Hj. rewrite <- (occurs_at_S needle c). apply Hfirst. lia.
Qed.

Lemma find_sub_None needle s : find_sub needle s = None ↔ absent needle s.
Proof.
  induction s as [|c s IH]; rewrite find_sub_unfold; case_bool_decide as Hp.
  - split; [done|]. intros Habs. by destruct (Habs 0%nat); apply occurs_at_0.
  - split; [|done]. intros _ i Hocc. apply Hp.
    unfold occurs_at in Hocc. by rewrite drop_nil in Hocc.
  - split; [done|]. intros Habs. by destruct (Habs 0%nat); apply occurs_at_0.
  - rewrite fmap_None, IH. split.
    + intros Habs [|i]; [by rewrite occurs_at_0 | rewrite occurs_at_S; apply Habs].
    + intros Habs i. rewrite <- (occurs_at_S needle c). apply Habs.
Qed.

Lemma find_sub_drop_Some needle s g k :
  find_sub needle (drop g s) = Some k ↔ first_from needle s g (g + k).
Proof.
  rewrite find_sub_Some. unfold first_from. rewrite occurs_at_drop.
  split; intros (_ & Hocc & Hfirst); (split; [lia|]); (split; [done|]).
  - intros j Hj. replace j with (g + (j - g))%nat by lia.
    rewrite <- occurs_at_drop. apply Hfirst. lia.
  - intros j Hj. rewrite occurs_at_drop. apply Hfirst. lia.
Qed.

Lemma find_sub_drop_None needle s g :
  find_sub needle (drop g s) = None ↔ ∀ j, (g ≤ j)%nat → ¬ occurs_at needle s j.
Proof.
  rewrite find_sub_None. unfold absent. split.
  - intros Habs j Hj. replace j with (g + (j - g))%nat by lia.
    rewrite <- occurs_at_drop. apply Habs.
  - intros Habs i. rewrite occurs_at_drop. apply Habs. lia.
Qed.

(** ** The copy loop *)

Lemma upto_delim_no_delim s : Forall (λ c, is_delim c = false) (upto_delim s).
Proof.
  induction s as [|c s IH]; simpl; [constructor|].
  destruct (is_delim c) eqn:Hc; by constructor.
Qed.

Lemma copy_loop_stop fuel buffer p i query c :
  load buffer (p + i) = Some c → is_delim c = true ∨ ¬ i < 255 →
  copy_loop fuel buffer p i query = Some (i, query).
Proof.
  intros Hload Hstop.
  assert (Hc : negb (is_delim c) && bool_decide (i < 255) = false).
  { destruct Hstop as [-> | Hi]; [done|].
    rewrite (bool_decide_eq_false_2 _ Hi). apply andb_false_r. }
  destruct fuel; simpl; rewrite Hload; simpl; by rewrite Hc.
Qed.

Lemma copy_loop_step fuel buffer p i query c :
  load buffer (p + i) = Some c → is_delim c = false → i < 255 →
  copy_loop (S fuel) buffer p i query =
  query' ← store query i c; copy_loop fuel buffer p (i + 1) query'.
Proof.
  intros Hload Hc Hi. simpl. rewrite Hload. simpl.
  by rewrite Hc, bool_decide_eq_true_2.
Qed.

Lemma copy_loop_spec buffer p rest fuel : ∀ s i query,
  0 ≤ p → 0 ≤ i ≤ 255 → (Z.to_nat (255 - i) ≤ fuel)%nat →
  length query = 256%nat →
  drop (Z.to_nat (p + i)) buffer = s ++ NUL :: rest →
  copy_loop fuel buffer p i query =
    Some (i + Z.of_nat (length (take (Z.to_nat (255 - i)) (upto_delim s))),
          take (Z.to_nat i) query
            ++ take (Z.to_nat (255 - i)) (upto_delim s)
            ++ drop (Z.to_nat i + length (take (Z.to_nat (255 - i)) (upto_delim s))) query).
Proof.
  assert (Hnil : ∀ i (query : list ascii), 0 ≤ i →
    Some (i, query) =
    Some (i + Z.of_nat (length (@nil ascii)),
          take (Z.to_nat i) query ++ [] ++ drop (Z.to_nat i + length (@nil ascii)) query)).
  { intros i query Hi. simpl. by rewrite Z.add_0_r, Nat.add_0_r, take_drop. }
  induction fuel as [|fuel IH]; intros s i query Hp Hi Hfuel Hlen Hdrop.
  - assert (i = 255) as -> by lia.
    destruct s as [|c s]; simpl in Hdrop;
      (erewrite copy_loop_stop; [|by eapply load_drop; [lia | exact Hdrop] | right; lia]);
      rewrite take_0; apply Hnil; lia.
  - destruct s as [|c s]; simpl in Hdrop.
    { erewrite copy_loop_stop; [|by eapply load_drop; [lia | exact Hdrop] | by left].
      simpl. rewrite take_nil. apply Hnil; lia. }
    assert (Hload : load buffer (p + i) = Some c)
      by (eapply load_drop; [lia | exact Hdrop]).
    destruct (is_delim c) eqn:Hc.
    { erewrite copy_loop_stop; [|done | by left].
      simpl. rewrite Hc, take_nil. apply Hnil; lia. }
    destruct (decide (i < 255)) as [Hlt | Hge].
    2:{ erewrite copy_loop_stop; [|done | by right].
        assert (i = 255) as -> by lia. rewrite take_0. apply Hnil; lia. }
    rewrite (copy_loop_step _ _ _ _ _ c) by done.
    rewrite store_Some by lia. simpl.
    rewrite (IH s); [|lia|lia|lia|by rewrite length_insert|].
    2:{ replace (p + (i + 1)) with (p + i + 1) by lia.
        eapply drop_succ; [lia | exact Hdrop]. }
    rewrite Hc.
    replace (Z.to_nat (255 - i)) with (S (Z.to_nat (255 - (i + 1)))) by lia.
    set (v := take (Z.to_nat (255 - (i + 1))) (upto_delim s)).
    rewrite firstn_cons. fold v. simpl length.
    f_equal. f_equal; [lia|].
    replace (Z.to_nat (i + 1)) with (S (Z.to_nat i)) by lia.
    erewrite take_S_r; [|by apply list_lookup_insert_eq; lia].
    rewrite take_insert_ge by lia.
    rewrite drop_insert_lt by lia.
    rewrite <- app_assoc. simpl.
    by replace (S (Z.to_nat i + length v))%nat with (Z.to_nat i + S (length v))%nat by lia.
Qed.

(** ** The extraction computes [param_of] within its 256-byte array *)

Lemma array_init_shape n lit :
  (length lit < n)%nat →
  array_init n lit = lit ++ NUL :: replicate (n - length lit - 1) NUL.
Proof.
  intros Hlen. unfold array_init.
  rewrite take_app_ge, take_replicate by lia.
  replace ((n - length lit) `min` n)%nat with (S (n - length lit - 1)) by lia.
  done.
Qed.

Lemma array_init_length n lit : length (array_init n lit) = n.
Proof.
  unfold array_init. rewrite length_take, length_app, length_replicate. lia.
Qed.

Lemma array_uninit_length n junk : length (array_uninit n junk) = n.
Proof.
  unfold array_uninit. rewrite length_take, length_app, length_replicate. lia.
Qed.

Lemma c_str_array_init n lit :
  (length lit < n)%nat → NUL ∉ lit → c_str (array_init n lit) 0 = lit.
Proof.
  intros Hlen Hn. rewrite array_init_shape by done.
  unfold c_str. rewrite drop_0. by apply until_nul_app.
Qed.

Lemma upto_delim_no_nul s n : NUL ∉ take n (upto_delim s).
Proof.
  intros Hin. apply subseteq_take in Hin.
  pose proof (upto_delim_no_delim s) as Hall.
  rewrite Forall_forall in Hall. by apply Hall in Hin.
Qed.

Lemma c_str_terminated (v q : list ascii) :
  NUL ∉ v → (length v < length (v ++ q))%nat →
  c_str (<[length v := NUL]> (v ++ q)) 0 = v.
Proof.
  intros Hn Hlen. rewrite length_app in Hlen.
  destruct q as [|x q]; [simpl in Hlen; lia|].
  replace (length v) with (length v + 0)%nat at 1 by lia.
  rewrite insert_app_r. unfold c_str. rewrite drop_0. by apply until_nul_app.
Qed.

Lemma strstr_text text rest (g : nat) needle :
  NUL ∉ text → (g ≤ length text)%nat →
  strstr (text ++ NUL :: rest) (Z.of_nat g) needle
  = (λ k : nat, Z.of_nat g + Z.of_nat k) <$> find_sub needle (drop g text).
Proof. intros Hn Hg. unfold strstr. by rewrite c_str_app. Qed.

Lemma extract_spec marker skip default text rest :
  NUL ∉ text → marker ≠ [] → skip = Z.of_nat (length marker) →
  NUL ∉ default → (length default < 256)%nat →
  ∃ query,
    extract marker skip default (text ++ NUL :: rest) = Some query ∧
    length query = 256%nat ∧
    c_str query 0 = param_of marker default text.
Proof.
  intros Hn Hmarker -> Hnd Hld.
  assert (Hdefault : ∃ query,
    Some (array_init 256 default) = Some query ∧
    length query = 256%nat ∧ c_str query 0 = default).
  { eexists. split; [done|]. split; [apply array_init_length|].
    by apply c_str_array_init. }
  unfold extract, param_of.
  rewrite (strstr_text _ _ 0) by (done || lia). rewrite drop_0.
  destruct (find_sub (c_lit "GET ") text) as [g|] eqn:Hget; [|done].
  cbn [fmap option_fmap option_map].
  apply find_sub_Some in Hget as (_ & Hget & _).
  apply occurs_at_length in Hget; [|done].
  replace (Z.of_nat 0 + Z.of_nat g) with (Z.of_nat g) by lia.
  rewrite strstr_text by (done || lia).
  destruct (find_sub marker (drop g text)) as [k|] eqn:Hk; [|done].
  cbn [fmap option_fmap option_map].
  apply find_sub_drop_Some in Hk as (_ & Hk & _).
  apply occurs_at_length in Hk; [|done].
  set (p := (g + k + length marker)%nat).
  replace (Z.of_nat g + Z.of_nat k + Z.of_nat (length marker))
    with (Z.of_nat p) by lia.
  rewrite (copy_loop_spec _ _ rest _ (drop p text));
    [|lia|lia|lia|apply array_init_length|].
  2:{ rewrite Z.add_0_r, Nat2Z.id. apply drop_app_le. lia. }
  change (Z.to_nat (255 - 0)) with 255%nat. change (Z.to_nat 0) with 0%nat.
  set (v := take 255 (upto_delim (drop p text))).
  assert (Hv : (length v ≤ 255)%nat) by (unfold v; rewrite length_take; lia).
  rewrite take_0. cbn [mbind option_bind app Nat.add].
  pose proof (array_init_length 256 default) as Hq.
  rewrite store_Some.
  2:{ rewrite length_app, length_drop, Hq. lia. }
  replace (Z.to_nat (0 + Z.of_nat (length v))) with (length v) by lia.
  eexists. split; [done|]. split.
  - rewrite length_insert, length_app, length_drop, Hq. lia.
  - apply c_str_terminated; [apply upto_delim_no_nul|].
    rewrite length_app, length_drop, Hq. lia.
Qed.

Lemma parameter_spec marker skip default r :
  marker ≠ [] → skip = Z.of_nat (length marker) →
  NUL ∉ default → (length default < 256)%nat →
  parameter marker skip default r
  = Some (param_of marker default (request_text r)).
Proof.
  intros Hm Hs Hnd Hld.
  destruct (request_buffer_shape r) as (_ & Hn & _ & rest & Hbuf).
  destruct (extract_spec marker skip default _ rest Hn Hm Hs Hnd Hld)
    as (query & Hq & _ & Hstr).
  unfold parameter. by rewrite Hbuf, Hq, <- Hstr.
Qed.

(** ** From the function on texts to the words of the specification *)

Lemma upto_delim_split s :
  ∃ t, s = upto_delim s ++ t ∧
       (t = [] ∨ ∃ c t', t = c :: t' ∧ is_delim c = true).
Proof.
  induction s as [|c s (t & Hs & Ht)]; simpl.
  - exists []. by split; [|left].
  - destruct (is_delim c) eqn:Hc.
    + exists (c :: s). split; [done|]. right. by exists c, s.
    + exists t. split; [|done]. simpl. by rewrite <- Hs.
Qed.

Lemma is_delim_true c :
  is_delim c = true → c = NUL ∨ c = " "%char ∨ c = "&"%char.
Proof.
  unfold is_delim. rewrite !orb_true_iff, !bool_decide_eq_true. tauto.
Qed.

Lemma is_delim_false c :
  is_delim c = false → c ≠ NUL ∧ c ≠ " "%char ∧ c ≠ "&"%char.
Proof.
  unfold is_delim. rewrite !orb_false_iff, !bool_decide_eq_false. tauto.
Qed.

Lemma value_of_upto_delim after :
  NUL ∉ after → value_of after (take 255 (upto_delim after)).
Proof.
  intros Hn. destruct (upto_delim_split after) as (t & Hs & Ht).
  exists (drop 255 (upto_delim after) ++ t). split; [|split; [|split]].
  - by rewrite app_assoc, take_drop.
  - apply Forall_take. eapply Forall_impl; [apply upto_delim_no_delim|].
    intros c Hc. apply is_delim_false in Hc. tauto.
  - rewrite length_take. lia.
  - destruct (decide (255 ≤ length (upto_delim after))%nat) as [Hlong | Hshort].
    + left. rewrite length_take. lia.
    + right. rewrite drop_ge by lia. simpl.
      destruct Ht as [-> | (c & t' & -> & Hc)]; [by left | right].
      exists c, t'. split; [done|].
      apply is_delim_true in Hc as [-> | Hc]; [|done].
      exfalso. apply Hn. rewrite Hs. apply elem_of_app. right. by left.
Qed.

Lemma value_of_length_le after v1 v2 :
  value_of after v1 → value_of after v2 → (length v2 ≤ length v1)%nat.
Proof.
  intros (t1 & H1 & _ & _ & Hstop) (t2 & H2 & Hall & Hlen & _).
  destruct (decide (length v2 ≤ length v1)%nat) as [|Hlt]; [done|]. exfalso.
  destruct Hstop as [Hfull | [-> | (c & t' & -> & Hc)]].
  - lia.
  - assert (length after = length v1) by (by rewrite H1, app_nil_r).
    assert (length after = (length v2 + length t2)%nat)
      by (by rewrite H2, length_app).
    lia.
  - assert (Hc1 : after !! length v1 = Some c)
      by (rewrite H1; apply list_lookup_middle; done).
    rewrite H2, lookup_app_l in Hc1 by lia.
    apply list_elem_of_lookup_2 in Hc1.
    rewrite Forall_forall in Hall. apply Hall in Hc1. tauto.
Qed.

(** The words of the specification determine the value. *)
Lemma value_of_unique after v1 v2 :
  value_of after v1 → value_of after v2 → v1 = v2.
Proof.
  intros H1 H2.
  pose proof (value_of_length_le _ _ _ H1 H2).
  pose proof (value_of_length_le _ _ _ H2 H1).
  destruct H1 as (t1 & H1 & _), H2 as (t2 & H2 & _).
  rewrite <- (take_app_length v1 t1), <- (take_app_length v2 t2), <- H1, <- H2.
  f_equal. lia.
Qed.

Lemma first_from_exists needle text from i :
  (from ≤ i)%nat → occurs_at needle text i → ∃ j, first_from needle text from j.
Proof.
  intros Hle Hocc.
  destruct (find_sub needle (drop from text)) as [k|] eqn:Hk.
  - exists (from + k)%nat. by apply find_sub_drop_Some.
  - exfalso. by eapply find_sub_drop_None.
Qed.

Lemma param_of_found marker default text g m :
  first_from (c_lit "GET ") text 0 g → first_from marker text g m →
  param_of marker default text
  = take 255 (upto_delim (drop (m + length marker) text)).
Proof.
  intros Hg Hm. unfold param_of.
  apply find_sub_Some in Hg. rewrite Hg.
  assert (m = g + (m - g))%nat as Heq by (destruct Hm; lia).
  rewrite Heq in Hm. apply find_sub_drop_Some in Hm. rewrite Hm.
  by rewrite <- Heq.
Qed.

Lemma param_of_no_get marker default text :
  absent (c_lit "GET ") text → param_of marker default text = default.
Proof.
  intros Habs. unfold param_of. apply find_sub_None in Habs. by rewrite Habs.
Qed.

Lemma param_of_no_marker marker default text g :
  first_from (c_lit "GET ") text 0 g →
  (∀ j, (g ≤ j)%nat → ¬ occurs_at marker text j) →
  param_of marker default text = default.
Proof.
  intros Hg Habs. unfold param_of. apply find_sub_Some in Hg. rewrite Hg.
  apply find_sub_drop_None in Habs. by rewrite Habs.
Qed.

(** A request either takes the fallback or has a first "GET " and a first
    marker at or after it. *)
Lemma param_of_cases marker default text :
  (param_of marker default text = default ∧
   (absent (c_lit "GET ") text ∨
    ∃ g, first_from (c_lit "GET ") text 0 g ∧
         ∀ j, (g ≤ j)%nat → ¬ occurs_at marker text j))
  ∨ (∃ g m, first_from (c_lit "GET ") text 0 g ∧ first_from marker text g m ∧
       param_of marker default text
       = take 255 (upto_delim (drop (m + length marker) text))).
Proof.
  destruct (find_sub (c_lit "GET ") text) as [g|] eqn:Hg.
  - apply find_sub_Some in Hg.
    destruct (find_sub marker (drop g text)) as [k|] eqn:Hk.
    + apply find_sub_drop_Some in Hk. right. exists g, (g + k)%nat.
      split; [done|]. split; [done|]. by apply (param_of_found _ _ _ g).
    + left. pose proof (proj1 (find_sub_drop_None _ _ _) Hk) as Habs.
      split; [by eapply param_of_no_marker|]. right. by exists g.
  - left. apply find_sub_None in Hg. split; [by apply param_of_no_get | by left].
Qed.

(** ** The two programs' parameters *)

Lemma query_of_spec r :
  Search.query_of r
  = Some (param_of (c_lit "q=") (c_lit "default") (request_text r)).
Proof. apply parameter_spec; [done | done | compute_done | vm_compute; lia]. Qed.

Lemma user_of_spec r :
  Auth.user_of r
  = Some (param_of (c_lit "user=") (c_lit "anonymous") (request_text r)).
Proof. apply parameter_spec; [done | done | compute_done | vm_compute; lia]. Qed.

Lemma request_text_no_nul r n : NUL ∉ drop n (request_text r).
Proof.
  destruct (request_buffer_shape r) as (_ & Hn & _).
  intros Hin. by apply subseteq_drop in Hin.
Qed.

Lemma first_get_le text g g0 :
  first_from (c_lit "GET ") text 0 g0 → occurs_at (c_lit "GET ") text g →
  (g0 ≤ g)%nat.
Proof.
  intros (_ & _ & Hfirst) Hocc.
  destruct (decide (g0 ≤ g)%nat) as [|Hlt]; [done|].
  destruct (Hfirst g); [lia | done].
Qed.

Section Markers.
Variables marker default : list ascii.

Lemma found_by_markers r g m :
  occurs_at (c_lit "GET ") (request_text r) g →
  occurs_at marker (request_text r) m → (g ≤ m)%nat →
  ∃ g0 m0 v,
    first_from (c_lit "GET ") (request_text r) 0 g0 ∧
    first_from marker (request_text r) g0 m0 ∧
    value_of (drop (m0 + length marker) (request_text r)) v ∧
    param_of marker default (request_text r) = v.
Proof.
  intros Hg Hm Hle.
  destruct (first_from_exists _ _ 0 g ltac:(lia) Hg) as [g0 Hg0].
  pose proof (first_get_le _ _ _ Hg0 Hg) as Hg0g.
  destruct (first_from_exists _ _ g0 m ltac:(lia) Hm) as [m0 Hm0].
  exists g0, m0, (take 255 (upto_delim (drop (m0 + length marker) (request_text r)))).
  split; [done|]. split; [done|].
  split; [apply value_of_upto_delim, request_text_no_nul|].
  by apply (param_of_found _ _ _ g0).
Qed.

Lemma default_by_absence text :
  absent (c_lit "GET ") text ∨ absent marker text →
  param_of marker default text = default.
Proof.
  intros [Hget | Hmarker]; [by apply param_of_no_get|].
  destruct (param_of_cases marker default text)
    as [[Hd _] | (g & m & _ & (_ & Hocc & _) & _)]; [done|].
  by destruct (Hmarker m).
Qed.
End Markers.

(** C1. A request whose text holds "GET " and, later, the field marker
    ("q=" for the Query Responder, "user=" for the Token Issuer) yields
    the characters that follow the marker, up to but not including the
    first space, the first '&' or the end of the text, and at most 255 of
    them; the marker meant is the first one at or after the first "GET ".
    A request whose text lacks "GET " or lacks the field marker yields the
    fixed default, "default" or "anonymous". *)
Theorem parameter_by_markers (r : recv_result) :
  ((∃ g m, occurs_at (c_lit "GET ") (request_text r) g ∧
           occurs_at (c_lit "q=") (request_text r) m ∧ (g + 4 ≤ m)%nat) →
   ∃ g0 m0 v,
     first_from (c_lit "GET ") (request_text r) 0 g0 ∧
     first_from (c_lit "q=") (request_text r) g0 m0 ∧
     value_of (drop (m0 + 2) (request_text r)) v ∧
     Search.query_of r = Some v)
  ∧ (absent (c_lit "GET ") (request_text r) ∨
     absent (c_lit "q=") (request_text r) →
     Search.query_of r = Some (c_lit "default"))
  ∧ ((∃ g m, occurs_at (c_lit "GET ") (request_text r) g ∧
             occurs_at (c_lit "user=") (request_text r) m ∧ (g + 4 ≤ m)%nat) →
     ∃ g0 m0 v,
       first_from (c_lit "GET ") (request_text r) 0 g0 ∧
       first_from (c_lit "user=") (request_text r) g0 m0 ∧
       value_of (drop (m0 + 5) (request_text r)) v ∧
       Auth.user_of r = Some v)
  ∧ (absent (c_lit "GET ") (request_text r) ∨
     absent (c_lit "user=") (request_text r) →
     Auth.user_of r = Some (c_lit "anonymous")).
Proof.
  rewrite query_of_spec, user_of_spec. repeat split.
  - intros (g & m & Hg & Hm & Hle).
    destruct (found_by_markers (c_lit "q=") (c_lit "default") r g m)
      as (g0 & m0 & v & ? & ? & ? & ->); [done | done | lia |].
    by exists g0, m0, v.
  - intros Habs. f_equal. by apply default_by_absence.
  - intros (g & m & Hg & Hm & Hle).
    destruct (found_by_markers (c_lit "user=") (c_lit "anonymous") r g m)
      as (g0 & m0 & v & ? & ? & ? & ->); [done | done | lia |].
    by exists g0, m0, v.
  - intros Habs. f_equal. by apply default_by_absence.
Qed.

Lemma parameter_by_markers_witness :
  (∃ g0 m0 v,
     first_from (c_lit "GET ")
       (request_text (req "GET /search?q=hello HTTP/1.1\r\n\r\n")) 0 g0 ∧
     first_from (c_lit "q=")
       (request_text (req "GET /search?q=hello HTTP/1.1\r\n\r\n")) g0 m0 ∧
     value_of (drop (m0 + 2)
       (request_text (req "GET /search?q=hello HTTP/1.1\r\n\r\n"))) v ∧
     Search.query_of (req "GET /search?q=hello HTTP/1.1\r\n\r\n") = Some v)
  ∧ Auth.user_of (req "POST /login?user=bob HTTP/1.1\r\n\r\n")
    = Some (c_lit "anonymous").
Proof.
  split.
  - apply (proj1 (parameter_by_markers _)).
    exists 0%nat, 12%nat. repeat split; [compute_done | compute_done | lia].
  - apply (proj2 (proj2 (proj2 (parameter_by_markers _)))).
    left. apply find_sub_None. by vm_compute.
Defined.

Lemma occurs_at_middle needle pre post :
  occurs_at needle (pre ++ needle ++ post) (length pre).
Proof.
  unfold occurs_at. rewrite drop_app_length. by apply prefix_app_r.
Qed.

Lemma raw_substring marker default r pre mid post :
  request_text r = pre ++ c_lit "GET " ++ mid ++ marker ++ post →
  (∀ i, (i < length pre)%nat → ¬ occurs_at (c_lit "GET ") (request_text r) i) →
  (∀ j, (length pre ≤ j < length pre + 4 + length mid)%nat →
        ¬ occurs_at marker (request_text r) j) →
  ∃ v, value_of post v ∧ param_of marker default (request_text r) = v.
Proof.
  intros Htext Hget Hmarker.
  pose proof (request_text_no_nul r (length pre + 4 + length mid + length marker))
    as Hnn.
  assert (Hg : first_from (c_lit "GET ") (request_text r) 0 (length pre)).
  { split; [lia|]. split; [|intros i Hi; apply Hget; lia].
    rewrite Htext. apply occurs_at_middle. }
  assert (Hm : first_from marker (request_text r) (length pre)
                 (length pre + 4 + length mid)).
  { split; [lia|]. split; [|done]. rewrite Htext.
    replace (pre ++ c_lit "GET " ++ mid ++ marker ++ post)
      with ((pre ++ c_lit "GET " ++ mid) ++ marker ++ post)
      by (by rewrite <- !app_assoc).
    replace (length pre + 4 + length mid)%nat
      with (length (pre ++ c_lit "GET " ++ mid))
      by (rewrite !length_app; simpl; lia).
    apply occurs_at_middle. }
  rewrite (param_of_found _ _ _ _ _ Hg Hm).
  assert (Hpost : drop (length pre + 4 + length mid + length marker)
                    (request_text r) = post).
  { rewrite Htext.
    replace (pre ++ c_lit "GET " ++ mid ++ marker ++ post)
      with ((pre ++ c_lit "GET " ++ mid ++ marker) ++ post)
      by (by rewrite <- !app_assoc).
    replace (length pre + 4 + length mid + length marker)%nat
      with (length (pre ++ c_lit "GET " ++ mid ++ marker))
      by (rewrite !length_app; simpl; lia).
    apply drop_app_length. }
  rewrite Hpost in *. eexists. split; [|done]. by apply value_of_upto_delim.
Qed.

(** C9. The field marker is matched as a raw substring: whatever stands
    between the first "GET " and the first later occurrence of the marker
    ([mid], which may hold line ends or end inside another key), the
    characters after that occurrence are the parameter.  So "GET /x?freq=5"
    yields "5", and a marker in a header line is used when the request
    line has none (the value then runs on through the line ends, which are
    no delimiters). *)
Theorem marker_is_raw_substring :
  (∀ r pre mid post,
     request_text r = pre ++ c_lit "GET " ++ mid ++ c_lit "q=" ++ post →
     (∀ i, (i < length pre)%nat →
           ¬ occurs_at (c_lit "GET ") (request_text r) i) →
     (∀ j, (length pre ≤ j < length pre + 4 + length mid)%nat →
           ¬ occurs_at (c_lit "q=") (request_text r) j) →
     ∃ v, value_of post v ∧ Search.query_of r = Some v)
  ∧ (∀ r pre mid post,
     request_text r = pre ++ c_lit "GET " ++ mid ++ c_lit "user=" ++ post →
     (∀ i, (i < length pre)%nat →
           ¬ occurs_at (c_lit "GET ") (request_text r) i) →
     (∀ j, (length pre ≤ j < length pre + 4 + length mid)%nat →
           ¬ occurs_at (c_lit "user=") (request_text r) j) →
     ∃ v, value_of post v ∧ Auth.user_of r = Some v)
  ∧ Search.query_of (req "GET /x?freq=5") = Some (c_lit "5")
  ∧ Search.query_of (req "GET /x?freq=5 HTTP/1.1\r\nHost: a\r\n\r\n")
    = Some (c_lit "5")
  ∧ Search.query_of (req "GET /x HTTP/1.1\r\nReferer: /y?q=abc&z\r\n\r\n")
    = Some (c_lit "abc")
  ∧ Auth.user_of (req "GET /x HTTP/1.1\r\nCookie: user=bob\r\n\r\n")
    = Some (c_lit "bob\r\n\r\n")
  ∧ Search.query_of (req "GET /x?q=1&q=2 HTTP/1.1\r\nReferer: /y?q=3\r\n\r\n")
    = Some (c_lit "1").
Proof.
  split; [|split; [|repeat split; by vm_compute]].
  - intros r pre mid post Htext Hget Hmarker. rewrite query_of_spec.
    destruct (raw_substring (c_lit "q=") (c_lit "default") r pre mid post)
      as (v & Hv & ->); [done..|]. by exists v.
  - intros r pre mid post Htext Hget Hmarker. rewrite user_of_spec.
    destruct (raw_substring (c_lit "user=") (c_lit "anonymous") r pre mid post)
      as (v & Hv & ->); [done..|]. by exists v.
Qed.

Lemma marker_is_raw_substring_witness :
  (∃ v, value_of (c_lit "5") v ∧
        Search.query_of (req "GET /x?freq=5") = Some v)
  ∧ (∃ v, value_of (c_lit "bob HTTP/1.1") v ∧
          Auth.user_of (req "HEAD / GET /?superuser=bob HTTP/1.1") = Some v).
Proof.
  split.
  - apply (proj1 marker_is_raw_substring
             (req "GET /x?freq=5") [] (c_lit "/x?fre") (c_lit "5")).
    + by vm_compute.
    + simpl. lia.
    + assert (Hq : find_sub (c_lit "q=") (drop 0 (request_text (req "GET /x?freq=5")))
                   = Some 10%nat) by (by vm_compute).
      apply find_sub_drop_Some in Hq as (_ & _ & Hq). exact Hq.
  - apply (proj1 (proj2 marker_is_raw_substring)
             (req "HEAD / GET /?superuser=bob HTTP/1.1")
             (c_lit "HEAD / ") (c_lit "/?super") (c_lit "bob HTTP/1.1")).
    + by vm_compute.
    + assert (Hg : find_sub (c_lit "GET ")
                     (drop 0 (request_text (req "HEAD / GET /?superuser=bob HTTP/1.1")))
                   = Some 7%nat) by (by vm_compute).
      apply find_sub_drop_Some in Hg as (_ & _ & Hg).
      intros i Hi. apply Hg. simpl in Hi. lia.
    + assert (Hu : find_sub (c_lit "user=")
                     (drop 7 (request_text (req "HEAD / GET /?superuser=bob HTTP/1.1")))
                   = Some 11%nat) by (by vm_compute).
      apply find_sub_drop_Some in Hu as (_ & _ & Hu). exact Hu.
Defined.

(** ** Decimal output *)

Lemma sint_range w n : 0 < w → - 2 ^ (w - 1) ≤ sint w n < 2 ^ (w - 1).
Proof.
  intros Hw. unfold sint.
  assert (H2 : 2 ^ w = 2 * 2 ^ (w - 1)).
  { rewrite <- Z.pow_succ_r by lia. f_equal. lia. }
  assert (0 < 2 ^ (w - 1)) by (apply Z.pow_pos_nonneg; lia).
  pose proof (Z.mod_pos_bound (n + 2 ^ (w - 1)) (2 ^ w)). lia.
Qed.

Lemma sint_id w n : 0 < w → - 2 ^ (w - 1) ≤ n < 2 ^ (w - 1) → sint w n = n.
Proof.
  intros Hw Hn. unfold sint.
  assert (H2 : 2 ^ w = 2 * 2 ^ (w - 1)).
  { rewrite <- Z.pow_succ_r by lia. f_equal. lia. }
  rewrite Z.mod_small by lia. lia.
Qed.

Lemma digit_char_is_digit n : is_digit (digit_char (n `mod` 10)) = true.
Proof.
  pose proof (Z.mod_pos_bound n 10 ltac:(lia)) as Hd.
  unfold is_digit, digit_char. apply bool_decide_eq_true.
  rewrite nat_ascii_embedding by lia. lia.
Qed.

Lemma digit_char_value n :
  Z.of_nat (nat_of_ascii (digit_char (n `mod` 10))) - 48 = n `mod` 10.
Proof.
  pose proof (Z.mod_pos_bound n 10 ltac:(lia)) as Hd.
  unfold digit_char. rewrite nat_ascii_embedding by lia. lia.
Qed.

Lemma dec_value_snoc d c :
  dec_value (d ++ [c]) = 10 * dec_value d + (Z.of_nat (nat_of_ascii c) - 48).
Proof. unfold dec_value. by rewrite fold_left_app. Qed.

Lemma digits_spec fuel : ∀ n acc,
  0 ≤ n < 10 ^ Z.of_nat (S fuel) →
  ∃ d, digits fuel n acc = d ++ acc ∧ dec_value d = n.
Proof.
  induction fuel as [|fuel IH]; intros n acc Hn.
  - exists [digit_char (n `mod` 10)]. split; [done|].
    unfold dec_value. simpl fold_left. rewrite digit_char_value.
    change (10 ^ Z.of_nat 1) with 10 in Hn. rewrite Z.mod_small; lia.
  - cbn [digits]. case_bool_decide as Hlt.
    + exists [digit_char (n `mod` 10)]. split; [done|].
      unfold dec_value. simpl fold_left. rewrite digit_char_value.
      rewrite Z.mod_small; lia.
    + destruct (IH (n / 10) (digit_char (n `mod` 10) :: acc)) as (d & Hd & Hv).
      { rewrite Nat2Z.inj_succ, Z.pow_succ_r in Hn by lia.
        split; [apply Z.div_pos; lia | apply Z.div_lt_upper_bound; lia]. }
      exists (d ++ [digit_char (n `mod` 10)]). split.
      * by rewrite Hd, <- app_assoc.
      * rewrite dec_value_snoc, Hv, digit_char_value.
        pose proof (Z.div_mod n 10). lia.
Qed.

Lemma digits_length fuel : ∀ n acc (k : nat),
  (1 ≤ k)%nat → 0 ≤ n < 10 ^ Z.of_nat k →
  (length (digits fuel n acc) ≤ k + length acc)%nat.
Proof.
  induction fuel as [|fuel IH]; intros n acc k Hk Hn; cbn [digits].
  - simpl. lia.
  - case_bool_decide as Hlt; [simpl; lia|].
    destruct k as [|[|k]]; [lia | change (10 ^ Z.of_nat 1) with 10 in Hn; lia |].
    etrans; [apply (IH (n / 10) _ (S k)); [lia|]|simpl; lia].
    rewrite (Nat2Z.inj_succ (S k)), Z.pow_succ_r in Hn by lia.
    split; [apply Z.div_pos; lia | apply Z.div_lt_upper_bound; lia].
Qed.

Lemma digits_are_digits fuel : ∀ n acc,
  Forall (λ c, is_digit c = true) acc →
  Forall (λ c, is_digit c = true) (digits fuel n acc).
Proof.
  induction fuel as [|fuel IH]; intros n acc Hacc; cbn [digits].
  - constructor; [apply digit_char_is_digit | done].
  - case_bool_decide.
    + constructor; [apply digit_char_is_digit | done].
    + apply IH. constructor; [apply digit_char_is_digit | done].
Qed.

Lemma log2_fuel n : 0 ≤ n → n < 10 ^ Z.of_nat (S (Z.to_nat (Z.log2 n))).
Proof.
  intros Hn. destruct (decide (n = 0)) as [-> | Hnz]; [done|].
  pose proof (Z.log2_spec n ltac:(lia)) as [_ Hlog].
  pose proof (Z.log2_nonneg n).
  rewrite Nat2Z.inj_succ, Z2Nat.id by lia.
  eapply Z.lt_le_trans; [exact Hlog|].
  apply Z.pow_le_mono_l. lia.
Qed.

(** [%d] and [%ld] print the number: reading the digits back gives it. *)
Lemma print_dec_value n : 0 ≤ n → dec_value (print_dec n) = n.
Proof.
  intros Hn. unfold print_dec. rewrite bool_decide_eq_false_2 by lia.
  destruct (digits_spec _ n [] (conj Hn (log2_fuel n Hn))) as (d & Hd & Hv).
  by rewrite Hd, app_nil_r.
Qed.

Lemma print_dec_length n (k : nat) :
  (1 ≤ k)%nat → - 10 ^ Z.of_nat k < n < 10 ^ Z.of_nat k →
  (length (print_dec n) ≤ S k)%nat.
Proof.
  intros Hk Hn. unfold print_dec. case_bool_decide.
  - simpl. pose proof (digits_length (Z.to_nat (Z.log2 (- n))) (- n) [] k Hk).
    simpl in *. lia.
  - pose proof (digits_length (Z.to_nat (Z.log2 n)) n [] k Hk).
    simpl in *. lia.
Qed.

Lemma print_dec_no_nul n : NUL ∉ print_dec n.
Proof.
  assert (Hd : ∀ fuel m, NUL ∉ digits fuel m []).
  { intros fuel m Hin.
    pose proof (digits_are_digits fuel m [] ltac:(constructor)) as Hall.
    rewrite Forall_forall in Hall. by apply Hall in Hin. }
  unfold print_dec. case_bool_decide; [|apply Hd].
  apply not_elem_of_cons. split; [done | apply Hd].
Qed.

Lemma print_int_length n : (length (print_dec (sint 32 n)) ≤ 11)%nat.
Proof.
  apply (print_dec_length _ 10); [lia|].
  pose proof (sint_range 32 n ltac:(lia)) as Hr.
  change (2 ^ (32 - 1)) with 2147483648 in Hr.
  change (10 ^ Z.of_nat 10) with 10000000000. lia.
Qed.

Lemma print_long_length n : (length (print_dec (sint 64 n)) ≤ 20)%nat.
Proof.
  apply (print_dec_length _ 19); [lia|].
  pose proof (sint_range 64 n ltac:(lia)) as Hr.
  change (2 ^ (64 - 1)) with 9223372036854775808 in Hr.
  change (10 ^ Z.of_nat 19) with 10000000000000000000. lia.
Qed.

(** ** [snprintf] *)

Lemma store_all_spec s : ∀ a i,
  0 ≤ i → (Z.to_nat i + length s ≤ length a)%nat →
  store_all a i s
  = Some (take (Z.to_nat i) a ++ s ++ drop (Z.to_nat i + length s) a).
Proof.
  induction s as [|c s IH]; intros a i Hi Hlen; simpl.
  - by rewrite Nat.add_0_r, take_drop.
  - simpl in Hlen. rewrite store_Some by lia. simpl.
    rewrite IH; [|lia|rewrite length_insert; lia]. f_equal.
    replace (Z.to_nat (i + 1)) with (S (Z.to_nat i)) by lia.
    erewrite take_S_r; [|apply list_lookup_insert_eq; lia].
    rewrite take_insert_ge, drop_insert_lt by lia.
    rewrite <- app_assoc. simpl.
    by replace (S (Z.to_nat i + length s))%nat
      with (Z.to_nat i + S (length s))%nat by lia.
Qed.

(** A text shorter than the array is stored whole, with its zero byte. *)
Lemma snprintf_fits buf size fmt args :
  size = Z.of_nat (length buf) →
  (length (format fmt args) < length buf)%nat → NUL ∉ format fmt args →
  ∃ b, snprintf buf size fmt args = Some b ∧
       length b = length buf ∧
       c_str b 0 = format fmt args ∧
       take (Z.to_nat (strlen b 0)) b = format fmt args.
Proof.
  intros -> Hlen Hn. unfold snprintf.
  rewrite bool_decide_eq_true_2 by lia.
  rewrite take_ge by lia.
  rewrite store_all_spec; [|lia|rewrite length_app; simpl; lia].
  rewrite take_0. cbn [app Z.to_nat Nat.add].
  rewrite length_app. cbn [length]. rewrite <- app_assoc. cbn [app].
  set (rest := drop _ buf).
  assert (Hstr : c_str (format fmt args ++ NUL :: rest) 0 = format fmt args).
  { unfold c_str. rewrite drop_0. by apply until_nul_app. }
  eexists. split; [done|]. split; [|split; [done|]].
  - unfold rest. rewrite length_app. cbn [length]. rewrite length_drop. lia.
  - unfold strlen. rewrite Hstr, Nat2Z.id. apply take_app_length.
Qed.

(** ** The Query Responder's response *)

Lemma format_query_json q pid now :
  format
    (c_lit "{'query': '%s', 'results': ['result1', 'result2', 'result3'], 'pid': %d, 'timestamp': %ld}")
    [ArgStr q; ArgInt pid; ArgLong now]
  = query_json q (sint 32 pid) (sint 64 now).
Proof. done. Qed.

Lemma format_http_response n body :
  format
    (c_lit "HTTP/1.1 200 OK\r\nContent-Type: application/json\r\nContent-Length: %ld\r\nConnection: close\r\n\r\n%s")
    [ArgLong n; ArgStr body]
  = http_response (print_dec (sint 64 n)) body.
Proof. unfold http_response. by rewrite <- (app_nil_r body) at 2. Qed.

Lemma http_response_length digits body :
  length (http_response digits body) = (88 + length digits + length body)%nat.
Proof.
  unfold http_response. rewrite !length_app.
  change (length (c_lit "HTTP/1.1 200 OK\r\nContent-Type: application/json\r\nContent-Length: ")) with 65%nat.
  change (length (c_lit "\r\nConnection: close\r\n\r\n")) with 23%nat. lia.
Qed.

Lemma http_response_no_nul digits body :
  NUL ∉ digits → NUL ∉ body → NUL ∉ http_response digits body.
Proof.
  intros Hd Hb. unfold http_response.
  rewrite !not_elem_of_app. repeat split; [compute_done | done | compute_done | done].
Qed.

Lemma query_json_length q pid ts :
  length (query_json q pid ts)
  = (83 + length q + length (print_dec pid) + length (print_dec ts))%nat.
Proof.
  unfold query_json. rewrite !length_app.
  change (length (c_lit "{'query': '")) with 11%nat.
  change (length (c_lit "', 'results': ['result1', 'result2', 'result3'], 'pid': ")) with 56%nat.
  change (length (c_lit ", 'timestamp': ")) with 15%nat.
  change (length (c_lit "}")) with 1%nat. lia.
Qed.

Lemma query_json_no_nul q pid ts : NUL ∉ q → NUL ∉ query_json q pid ts.
Proof.
  intros Hq. unfold query_json. rewrite !not_elem_of_app.
  repeat split; try apply print_dec_no_nul; try done; compute_done.
Qed.

Lemma c_str_no_nul a p : NUL ∉ c_str a p.
Proof. apply until_nul_no_nul. Qed.

(** Sending a body that fits: both arrays hold their text whole, and the
    bytes sent are the response around the body, with the body's length in
    decimal as Content-Length. *)
Lemma send_fits t fd fmt args body :
  format fmt args = body → NUL ∉ body → (length body ≤ 400)%nat →
  ∃ b,
    snprintf (array_uninit 512 (junk_body t)) 512 fmt args = Some b ∧
    c_str b 0 = body ∧
    (response ← snprintf (array_uninit 1024 (junk_response t)) 1024
       (c_lit "HTTP/1.1 200 OK\r\nContent-Type: application/json\r\nContent-Length: %ld\r\nConnection: close\r\n\r\n%s")
       [ArgLong (strlen b 0); ArgStr (c_str b 0)];
     Some (Send fd (take (Z.to_nat (strlen response 0)) response)))
    = Some (Send fd
        (http_response (print_dec (Z.of_nat (length body))) body)).
Proof.
  intros Hfmt Hn Hlen.
  destruct (snprintf_fits (array_uninit 512 (junk_body t)) 512 fmt args)
    as (b & Hb & _ & Hstr & _).
  { by rewrite array_uninit_length. }
  { rewrite array_uninit_length, Hfmt. lia. }
  { by rewrite Hfmt. }
  rewrite Hfmt in Hstr.
  exists b. split; [done|]. split; [done|].
  assert (Hlenb : strlen b 0 = Z.of_nat (length body))
    by (unfold strlen; by rewrite Hstr).
  rewrite Hlenb, Hstr.
  assert (Hdigits : sint 64 (Z.of_nat (length body)) = Z.of_nat (length body)).
  { apply sint_id; [lia|]. change (2 ^ (64 - 1)) with 9223372036854775808. lia. }
  pose proof (print_long_length (Z.of_nat (length body))) as Hdl.
  rewrite Hdigits in Hdl.
  destruct (snprintf_fits (array_uninit 1024 (junk_response t)) 1024
              (c_lit "HTTP/1.1 200 OK\r\nContent-Type: application/json\r\nContent-Length: %ld\r\nConnection: close\r\n\r\n%s")
              [ArgLong (Z.of_nat (length body)); ArgStr body])
    as (resp & Hresp & _ & _ & Hsent).
  { by rewrite array_uninit_length. }
  { rewrite array_uninit_length, format_http_response, Hdigits,
      http_response_length. lia. }
  { rewrite format_http_response. apply http_response_no_nul; [|done].
    apply print_dec_no_nul. }
  by rewrite Hresp, bind_Some, Hsent, format_http_response, Hdigits.
Qed.

Lemma search_send_response t pid fd query :
  (length (c_str query 0) ≤ 255)%nat →
  Search.send_response t pid fd query
  = Some (Send fd
      (http_response
         (print_dec (Z.of_nat (length
            (query_json (c_str query 0) (sint 32 pid) (sint 64 (now t))))))
         (query_json (c_str query 0) (sint 32 pid) (sint 64 (now t))))).
Proof.
  intros Hq. unfold Search.send_response.
  destruct (send_fits t fd _ _ _ (format_query_json (c_str query 0) pid (now t)))
    as (b & Hb & Hstr & Hsend).
  { apply query_json_no_nul, c_str_no_nul. }
  { rewrite query_json_length.
    pose proof (print_int_length pid). pose proof (print_long_length (now t)).
    lia. }
  rewrite Hb, bind_Some. exact Hsend.
Qed.

Lemma param_of_length marker default text :
  (length default ≤ 255)%nat →
  (length (param_of marker default text) ≤ 255)%nat.
Proof.
  intros Hd. unfold param_of.
  destruct (find_sub _ text) as [g|]; [|done].
  destruct (find_sub marker _) as [k|]; [|done].
  rewrite length_take. lia.
Qed.

Lemma recv_pair r :
  recv (replicate 1024 NUL) 1023 r = (recv_count r, request_buffer r).
Proof. unfold recv_count, request_buffer. by destruct (recv _ _ r). Qed.

(** One turn of the Query Responder's loop, in full. *)
Lemma search_serve server_socket pid t s :
  Search.serve server_socket pid t s
  = Some
      (if bool_decide (r_accept t < 0) then [Accept server_socket (r_accept t)]
       else
         let q := param_of (c_lit "q=") (c_lit "default")
                    (request_text (r_recv t)) in
         let body := query_json q (sint 32 pid) (sint 64 (now t)) in
         [Accept server_socket (r_accept t);
          Recv (r_accept t) (recv_count (r_recv t));
          Send (r_accept t)
            (http_response (print_dec (Z.of_nat (length body))) body);
          Close (r_accept t)],
       s).
Proof.
  unfold Search.serve. case_bool_decide; [done|].
  rewrite recv_pair.
  pose proof (query_of_spec (r_recv t)) as Hq.
  unfold Search.query_of, parameter in Hq.
  destruct (extract _ _ _ (request_buffer (r_recv t))) as [query|] eqn:He;
    [|done].
  injection Hq as Hq. rewrite bind_Some.
  rewrite search_send_response, bind_Some.
  - by rewrite Hq.
  - rewrite Hq. apply param_of_length. vm_compute. lia.
Qed.

(** ** The Token Issuer's token and response *)

Lemma sint_idem w n : 0 < w → sint w (sint w n) = sint w n.
Proof. intros Hw. apply sint_id; [done | by apply sint_range]. Qed.

(** Whatever raw number [rand] returns, the index is in the alphabet. *)
Lemma pick_alnum r : ∃ c, Auth.pick r = Some c ∧ is_alnum c = true.
Proof.
  unfold Auth.pick.
  change (Z.of_nat (length Auth.charset) - 1) with 62.
  pose proof (Z.mod_pos_bound (r `mod` 2 ^ 64) 62 ltac:(lia)) as Hi.
  set (i := (r `mod` 2 ^ 64) `mod` 62) in *.
  unfold load. rewrite bool_decide_eq_true_2 by lia.
  destruct (lookup_lt_is_Some_2 (take 62 Auth.charset) (Z.to_nat i)) as [c Hc].
  { rewrite length_take. change (length Auth.charset) with 63%nat. lia. }
  exists c. split.
  - by rewrite lookup_take_lt in Hc by lia.
  - apply list_elem_of_lookup_2 in Hc.
    assert (Hall : Forall (λ c, is_alnum c = true) (take 62 Auth.charset))
      by compute_done.
    rewrite Forall_forall in Hall. by apply Hall.
Qed.

Lemma is_alnum_no_nul cs : Forall (λ c, is_alnum c = true) cs → NUL ∉ cs.
Proof.
  intros Hall Hin. rewrite Forall_forall in Hall. by apply Hall in Hin.
Qed.

Section TokenIssuer.
Context {G : Type} `{RandGen G}.

Lemma token_loop_spec fuel : ∀ token i (g : G),
  0 ≤ i ≤ 32 → length token = 33%nat → (Z.to_nat (32 - i) ≤ fuel)%nat →
  ∃ cs g',
    Auth.token_loop fuel token 33 i g
    = Some (take (Z.to_nat i) token ++ cs ++ drop 32 token, g') ∧
    length cs = Z.to_nat (32 - i) ∧
    Forall (λ c, is_alnum c = true) cs.
Proof.
  assert (Hend : ∀ fuel token (g : G),
    Auth.token_loop fuel token 33 32 g = Some (token, g)).
  { by intros [|?] ??. }
  induction fuel as [|fuel IH]; intros token i g Hi Hlen Hfuel.
  - assert (i = 32) as -> by lia. exists [], g. rewrite Hend.
    split; [|by split]. change (Z.to_nat 32) with 32%nat.
    by rewrite app_nil_l, take_drop.
  - destruct (decide (i = 32)) as [-> | Hne].
    { exists [], g. rewrite Hend. split; [|by split].
      change (Z.to_nat 32) with 32%nat. by rewrite app_nil_l, take_drop. }
    cbn [Auth.token_loop]. rewrite bool_decide_eq_true_2 by lia.
    destruct (rand g) as [r g1].
    destruct (pick_alnum r) as (c & -> & Hc). rewrite bind_Some.
    rewrite store_Some, bind_Some by lia.
    destruct (IH (<[Z.to_nat i := c]> token) (i + 1) g1)
      as (cs & g' & -> & Hcs & Hall); [lia | by rewrite length_insert | lia |].
    exists (c :: cs), g'. split; [|split].
    + f_equal. f_equal.
      replace (Z.to_nat (i + 1)) with (S (Z.to_nat i)) by lia.
      erewrite take_S_r; [|apply list_lookup_insert_eq; lia].
      rewrite take_insert_ge, drop_insert_lt by lia.
      by rewrite <- app_assoc.
    + simpl. lia.
    + by constructor.
Qed.

(** [generate_token(token, 33)] leaves 32 alphanumeric characters and
    the zero byte in the array. *)
Lemma generate_token_spec junk (g : G) :
  ∃ token g',
    Auth.generate_token (array_uninit 33 junk) 33 g
    = Some (token ++ [NUL], g') ∧
    length token = 32%nat ∧ Forall (λ c, is_alnum c = true) token.
Proof.
  unfold Auth.generate_token.
  pose proof (array_uninit_length 33 junk) as Hlen.
  destruct (token_loop_spec (Z.to_nat 33) (array_uninit 33 junk) 0 g)
    as (cs & g' & -> & Hcs & Hall); [lia | done | lia |].
  rewrite bind_Some. exists cs, g'. split; [|by split].
  change (Z.to_nat 0) with 0%nat. rewrite take_0, app_nil_l.
  change (Z.to_nat (32 - 0)) with 32%nat in Hcs.
  destruct (drop 32 (array_uninit 33 junk)) as [|x [|??]] eqn:Hd;
    apply (f_equal length) in Hd; rewrite length_drop, Hlen in Hd;
    try done.
  rewrite store_Some by (rewrite length_app; simpl; lia).
  rewrite bind_Some. change (Z.to_nat (33 - 1)) with (32 + 0)%nat.
  by rewrite <- Hcs, insert_app_r.
Qed.

Lemma format_token_json user token pid expires :
  format (c_lit "{'user': '%s', 'token': '%s', 'pid': %d, 'expires': %ld}")
    [ArgStr user; ArgStr token; ArgInt pid; ArgLong expires]
  = token_json user token (sint 32 pid) (sint 64 expires).
Proof. done. Qed.

Lemma token_json_length user token pid expires :
  length (token_json user token pid expires)
  = (47 + length user + length token + length (print_dec pid)
     + length (print_dec expires))%nat.
Proof.
  unfold token_json. rewrite !length_app.
  change (length (c_lit "{'user': '")) with 10%nat.
  change (length (c_lit "', 'token': '")) with 13%nat.
  change (length (c_lit "', 'pid': ")) with 10%nat.
  change (length (c_lit ", 'expires': ")) with 13%nat.
  change (length (c_lit "}")) with 1%nat. lia.
Qed.

Lemma token_json_no_nul user token pid expires :
  NUL ∉ user → NUL ∉ token → NUL ∉ token_json user token pid expires.
Proof.
  intros Hu Ht. unfold token_json. rewrite !not_elem_of_app.
  repeat split; try apply print_dec_no_nul; try done; compute_done.
Qed.

Lemma auth_send_response t pid fd user (g : G) :
  (length (c_str user 0) ≤ 255)%nat →
  ∃ token g',
    length token = 32%nat ∧ Forall (λ c, is_alnum c = true) token ∧
    Auth.send_response t pid fd user g
    = Some
        (Send fd
           (http_response
              (print_dec (Z.of_nat (length
                 (token_json (c_str user 0) token (sint 32 pid)
                    (sint 64 (now t + 3600))))))
              (token_json (c_str user 0) token (sint 32 pid)
                 (sint 64 (now t + 3600)))),
         g').
Proof.
  intros Hu. unfold Auth.send_response.
  destruct (generate_token_spec (junk_token t) g)
    as (token & g' & -> & Hlen & Hall).
  rewrite bind_Some. exists token, g'. split; [done|]. split; [done|].
  assert (Htok : c_str (token ++ [NUL]) 0 = token).
  { unfold c_str. rewrite drop_0. by apply until_nul_app, is_alnum_no_nul. }
  rewrite Htok.
  destruct (send_fits t fd _ _ _
              (format_token_json (c_str user 0) token pid
                 (sint 64 (now t + 3600))))
    as (b & Hb & Hstr & Hsend).
  { apply token_json_no_nul; [apply c_str_no_nul | by apply is_alnum_no_nul]. }
  { rewrite token_json_length, Hlen.
    pose proof (print_int_length pid).
    pose proof (print_long_length (sint 64 (now t + 3600))). lia. }
  rewrite Hb, bind_Some.
  rewrite sint_idem in Hsend by lia.
  destruct (snprintf _ 1024 _ _) as [response|]; [|done].
  rewrite bind_Some in *. by injection Hsend as ->.
Qed.

(** One turn of the Token Issuer's loop, in full. *)
Lemma auth_serve server_socket pid t (g : G) :
  ∃ token g',
    length token = 32%nat ∧ Forall (λ c, is_alnum c = true) token ∧
    Auth.serve server_socket pid t g
    = Some
        (if bool_decide (r_accept t < 0)
         then [Accept server_socket (r_accept t)]
         else
           let user := param_of (c_lit "user=") (c_lit "anonymous")
                         (request_text (r_recv t)) in
           let body := token_json user token (sint 32 pid)
                         (sint 64 (now t + 3600)) in
           [Accept server_socket (r_accept t);
            Recv (r_accept t) (recv_count (r_recv t));
            Send (r_accept t)
              (http_response (print_dec (Z.of_nat (length body))) body);
            Close (r_accept t)],
         if bool_decide (r_accept t < 0) then g else g').
Proof.
  pose proof (user_of_spec (r_recv t)) as Hq.
  unfold Auth.user_of, parameter in Hq.
  destruct (extract _ _ _ (request_buffer (r_recv t))) as [user|] eqn:He;
    [|done].
  injection Hq as Hq.
  destruct (auth_send_response t pid (r_accept t) user g)
    as (token & g' & Hlen & Hall & Hsend).
  { rewrite Hq. apply param_of_length. vm_compute. lia. }
  exists token, g'. split; [done|]. split; [done|].
  unfold Auth.serve. case_bool_decide; [done|].
  rewrite recv_pair, He, bind_Some, Hsend, bind_Some. by rewrite Hq.
Qed.
End TokenIssuer.

(** ** The response to a request *)

Lemma extract_request marker skip default r :
  marker ≠ [] → skip = Z.of_nat (length marker) →
  NUL ∉ default → (length default ≤ 255)%nat →
  ∃ query,
    extract marker skip default (request_buffer r) = Some query ∧
    length query = 256%nat ∧
    c_str query 0 = param_of marker default (request_text r) ∧
    (length (c_str query 0) ≤ 255)%nat.
Proof.
  intros Hm Hs Hnd Hld.
  destruct (request_buffer_shape r) as (_ & Hn & _ & rest & Hbuf).
  destruct (extract_spec marker skip default _ rest Hn Hm Hs Hnd ltac:(lia))
    as (query & Hq & Hlen & Hstr).
  exists query. rewrite Hbuf. split; [done|]. split; [done|]. split; [done|].
  rewrite Hstr. by apply param_of_length.
Qed.

Lemma extract_query r :
  ∃ query,
    extract (c_lit "q=") 2 (c_lit "default") (request_buffer r) = Some query ∧
    length query = 256%nat ∧
    c_str query 0
    = param_of (c_lit "q=") (c_lit "default") (request_text r) ∧
    (length (c_str query 0) ≤ 255)%nat.
Proof.
  apply extract_request; [done | done | compute_done | vm_compute; lia].
Qed.

Lemma extract_user r :
  ∃ user,
    extract (c_lit "user=") 5 (c_lit "anonymous") (request_buffer r)
    = Some user ∧
    length user = 256%nat ∧
    c_str user 0
    = param_of (c_lit "user=") (c_lit "anonymous") (request_text r) ∧
    (length (c_str user 0) ≤ 255)%nat.
Proof.
  apply extract_request; [done | done | compute_done | vm_compute; lia].
Qed.

(** *** The blank line of the response *)

Lemma find_sub_cons needle c s k :
  ¬ needle `prefix_of` c :: s → find_sub needle s = Some k →
  find_sub needle (c :: s) = Some (S k).
Proof.
  intros Hp Hk. rewrite find_sub_unfold, bool_decide_eq_false_2 by done.
  by rewrite Hk.
Qed.

Lemma is_digit_not_CR c : is_digit c = true → c ≠ CR.
Proof. by intros Hc ->. Qed.

Lemma find_blank_line_after_digits digits s k :
  Forall (λ c, is_digit c = true) digits →
  find_sub (c_lit "\r\n\r\n") s = Some k →
  find_sub (c_lit "\r\n\r\n") (digits ++ s) = Some (length digits + k)%nat.
Proof.
  intros Hall Hk. induction Hall as [|c digits Hc _ IH]; [done|].
  apply find_sub_cons; [|done].
  intros [rest Hrest]. injection Hrest as -> _. by apply is_digit_not_CR in Hc.
Qed.

(** In a response, the first blank line is the one that ends the
    headers; what follows it is the body. *)
Lemma blank_line_before_body digits body :
  Forall (λ c, is_digit c = true) digits →
  first_from (c_lit "\r\n\r\n") (http_response digits body) 0
    (84 + length digits)
  ∧ drop (84 + length digits + 4) (http_response digits body) = body.
Proof.
  intros Hall. split.
  - apply find_sub_Some. unfold http_response.
    replace (84 + length digits)%nat
      with (65 + (length digits + 19))%nat by lia.
    cbn [c_lit c_escapes list_ascii_of_string app Nat.add].
    repeat (apply find_sub_cons; [by intros [? ?]|]).
    apply find_blank_line_after_digits; [done|].
    cbn [c_lit c_escapes list_ascii_of_string app].
    repeat (apply find_sub_cons; [by intros [? ?]|]).
    rewrite find_sub_unfold, bool_decide_eq_true_2; [done|]. by exists body.
  - unfold http_response.
    rewrite !app_assoc, <- (app_assoc _ digits).
    rewrite drop_app_length'; [done|].
    rewrite !length_app.
    change (length (c_lit "HTTP/1.1 200 OK\r\nContent-Type: application/json\r\nContent-Length: ")) with 65%nat.
    change (length (c_lit "\r\nConnection: close\r\n\r\n")) with 23%nat. lia.
Qed.

Lemma print_dec_digits n :
  0 ≤ n → Forall (λ c, is_digit c = true) (print_dec n).
Proof.
  intros Hn. unfold print_dec. rewrite bool_decide_eq_false_2 by lia.
  apply digits_are_digits. constructor.
Qed.

(** C2. For every request, the bytes [send_response] sends are the status
    line and headers, a blank line and the JSON body, that blank line
    being the first of the response; and the digits after
    "Content-Length: " are the decimal notation of the exact number of
    bytes of the body; in both servers. *)
Theorem content_length_exact :
  (∀ r t pid fd, ∃ query digits body,
     extract (c_lit "q=") 2 (c_lit "default") (request_buffer r) = Some query ∧
     body = query_json (c_str query 0) (sint 32 pid) (sint 64 (now t)) ∧
     Search.send_response t pid fd query
     = Some (Send fd (http_response digits body)) ∧
     first_from (c_lit "\r\n\r\n") (http_response digits body) 0
       (84 + length digits) ∧
     drop (84 + length digits + 4) (http_response digits body) = body ∧
     digits = print_dec (Z.of_nat (length body)) ∧
     dec_value digits = Z.of_nat (length body))
  ∧ (∀ (G : Type) (R : RandGen G) r t pid fd (g : G),
     ∃ user token digits body g',
     extract (c_lit "user=") 5 (c_lit "anonymous") (request_buffer r)
     = Some user ∧
     body = token_json (c_str user 0) token (sint 32 pid)
              (sint 64 (now t + 3600)) ∧
     Auth.send_response t pid fd user g
     = Some (Send fd (http_response digits body), g') ∧
     first_from (c_lit "\r\n\r\n") (http_response digits body) 0
       (84 + length digits) ∧
     drop (84 + length digits + 4) (http_response digits body) = body ∧
     digits = print_dec (Z.of_nat (length body)) ∧
     dec_value digits = Z.of_nat (length body)).
Proof.
  assert (Hblank : ∀ body,
    first_from (c_lit "\r\n\r\n")
      (http_response (print_dec (Z.of_nat (length body))) body) 0
      (84 + length (print_dec (Z.of_nat (length body))))
    ∧ drop (84 + length (print_dec (Z.of_nat (length body))) + 4)
        (http_response (print_dec (Z.of_nat (length body))) body) = body
    ∧ print_dec (Z.of_nat (length body)) = print_dec (Z.of_nat (length body))
    ∧ dec_value (print_dec (Z.of_nat (length body))) = Z.of_nat (length body)).
  { intros body.
    destruct (blank_line_before_body (print_dec (Z.of_nat (length body))) body)
      as [Hfirst Hdrop]; [apply print_dec_digits; lia|].
    split; [done|]. split; [done|]. split; [done|].
    apply print_dec_value. lia. }
  split.
  - intros r t pid fd.
    destruct (extract_query r) as (query & Hq & _ & _ & Hlen).
    exists query. eexists _, _. split; [done|]. split; [done|].
    split; [by apply search_send_response | apply Hblank].
  - intros G R r t pid fd g.
    destruct (extract_user r) as (user & Hu & _ & _ & Hlen).
    destruct (auth_send_response t pid fd user g Hlen)
      as (token & g' & _ & _ & Hsend).
    exists user, token. eexists _, _, g'. split; [done|]. split; [done|].
    split; [exact Hsend | apply Hblank].
Qed.

(** C4. For every request the Token Issuer handles, the token in the
    "token" field of the body it sends is 32 characters long and each of
    them is a letter or a digit, whatever the generator returns. *)
Theorem token_is_32_alnum (G : Type) (R : RandGen G) r t pid fd (g : G) :
  ∃ user token g',
    extract (c_lit "user=") 5 (c_lit "anonymous") (request_buffer r)
    = Some user ∧
    Auth.send_response t pid fd user g
    = Some (Send fd
        (http_response
           (print_dec (Z.of_nat (length
              (token_json (c_str user 0) token (sint 32 pid)
                 (sint 64 (now t + 3600))))))
           (token_json (c_str user 0) token (sint 32 pid)
              (sint 64 (now t + 3600)))), g') ∧
    length token = 32%nat ∧
    Forall (λ c, is_alnum c = true) token ∧
    Forall (λ c, c ∈ take 62 Auth.charset) token.
Proof.
  destruct (extract_user r) as (user & Hu & _ & _ & Hlen).
  destruct (auth_send_response t pid fd user g Hlen)
    as (token & g' & Hlen32 & Hall & Hsend).
  exists user, token, g'. repeat split; try done.
  eapply Forall_impl; [exact Hall|]. intros c Hc.
  assert (Hcs : ∀ c, bool_decide (is_alnum c = true → c ∈ take 62 Auth.charset)).
  { by intros [[] [] [] [] [] [] [] []]; vm_compute. }
  exact (bool_decide_unpack _ (Hcs c) Hc).
Qed.

Lemma upto_delim_app full tail :
  Forall (λ c, is_delim c = false) full →
  upto_delim (full ++ tail) = full ++ upto_delim tail.
Proof.
  induction 1 as [|c full Hc _ IH]; simpl; [done|]. by rewrite Hc, IH.
Qed.

Lemma long_value marker default r g0 m0 full tail :
  first_from (c_lit "GET ") (request_text r) 0 g0 →
  first_from marker (request_text r) g0 m0 →
  drop (m0 + length marker) (request_text r) = full ++ tail →
  Forall (λ c, c ≠ " "%char ∧ c ≠ "&"%char) full →
  (255 < length full)%nat →
  param_of marker default (request_text r) = take 255 full.
Proof.
  intros Hg Hm Hdrop Hall Hlen.
  rewrite (param_of_found _ _ _ _ _ Hg Hm), Hdrop.
  rewrite upto_delim_app; [by rewrite take_app_le by lia|].
  pose proof (request_text_no_nul r (m0 + length marker)) as Hnn.
  rewrite Hdrop in Hnn. apply not_elem_of_app in Hnn as [Hnn _].
  rewrite Forall_forall in Hall. apply Forall_forall. intros c Hc.
  destruct (Hall c Hc) as [Hs Ha].
  unfold is_delim. rewrite !orb_false_iff, !bool_decide_eq_false.
  repeat split; try done. by intros ->.
Qed.

(** C3. No turn of either server faults: every write of the extraction
    and of the formatting goes through [store], which fails outside the
    array written (256 bytes for the parameter, 512 for the body, 1024 for
    the response, 33 for the token), and the turn returns a result.  And
    when the characters after the marker run on for more than 255 without
    a space or '&', the response the turn sends on the accepted socket
    carries in its JSON body the first 255 of them as the value, the
    extraction having left exactly these in its 256-byte array. *)
Theorem long_value_truncated :
  (∀ server_socket pid t s, is_Some (Search.serve server_socket pid t s))
  ∧ (∀ (G : Type) (R : RandGen G) server_socket pid t (g : G),
       is_Some (Auth.serve server_socket pid t g))
  ∧ (∀ server_socket pid t s g0 m0 full tail,
       0 ≤ r_accept t →
       first_from (c_lit "GET ") (request_text (r_recv t)) 0 g0 →
       first_from (c_lit "q=") (request_text (r_recv t)) g0 m0 →
       drop (m0 + 2) (request_text (r_recv t)) = full ++ tail →
       Forall (λ c, c ≠ " "%char ∧ c ≠ "&"%char) full →
       (255 < length full)%nat →
       Search.serve server_socket pid t s
       = Some ([Accept server_socket (r_accept t);
                Recv (r_accept t) (recv_count (r_recv t));
                Send (r_accept t)
                  (http_response
                     (print_dec (Z.of_nat (length
                        (query_json (take 255 full) (sint 32 pid)
                           (sint 64 (now t))))))
                     (query_json (take 255 full) (sint 32 pid)
                        (sint 64 (now t))));
                Close (r_accept t)], s))
  ∧ (∀ (G : Type) (R : RandGen G) server_socket pid t (g : G)
       g0 m0 full tail,
       0 ≤ r_accept t →
       first_from (c_lit "GET ") (request_text (r_recv t)) 0 g0 →
       first_from (c_lit "user=") (request_text (r_recv t)) g0 m0 →
       drop (m0 + 5) (request_text (r_recv t)) = full ++ tail →
       Forall (λ c, c ≠ " "%char ∧ c ≠ "&"%char) full →
       (255 < length full)%nat →
       ∃ token g',
         length token = 32%nat ∧
         Auth.serve server_socket pid t g
         = Some ([Accept server_socket (r_accept t);
                  Recv (r_accept t) (recv_count (r_recv t));
                  Send (r_accept t)
                    (http_response
                       (print_dec (Z.of_nat (length
                          (token_json (take 255 full) token (sint 32 pid)
                             (sint 64 (now t + 3600))))))
                       (token_json (take 255 full) token (sint 32 pid)
                          (sint 64 (now t + 3600))));
                  Close (r_accept t)], g'))
  ∧ (∀ r t pid fd g0 m0 full tail,
       first_from (c_lit "GET ") (request_text r) 0 g0 →
       first_from (c_lit "q=") (request_text r) g0 m0 →
       drop (m0 + 2) (request_text r) = full ++ tail →
       Forall (λ c, c ≠ " "%char ∧ c ≠ "&"%char) full →
       (255 < length full)%nat →
       ∃ query,
         extract (c_lit "q=") 2 (c_lit "default") (request_buffer r)
         = Some query ∧
         length query = 256%nat ∧
         c_str query 0 = take 255 full ∧
         Search.send_response t pid fd query
         = Some (Send fd
             (http_response
                (print_dec (Z.of_nat (length
                   (query_json (take 255 full) (sint 32 pid) (sint 64 (now t))))))
                (query_json (take 255 full) (sint 32 pid) (sint 64 (now t))))))
  ∧ (∀ (G : Type) (R : RandGen G) r t pid fd (g : G) g0 m0 full tail,
       first_from (c_lit "GET ") (request_text r) 0 g0 →
       first_from (c_lit "user=") (request_text r) g0 m0 →
       drop (m0 + 5) (request_text r) = full ++ tail →
       Forall (λ c, c ≠ " "%char ∧ c ≠ "&"%char) full →
       (255 < length full)%nat →
       ∃ user token g',
         extract (c_lit "user=") 5 (c_lit "anonymous") (request_buffer r)
         = Some user ∧
         length user = 256%nat ∧
         c_str user 0 = take 255 full ∧
         Auth.send_response t pid fd user g
         = Some (Send fd
             (http_response
                (print_dec (Z.of_nat (length
                   (token_json (take 255 full) token (sint 32 pid)
                      (sint 64 (now t + 3600))))))
                (token_json (take 255 full) token (sint 32 pid)
                   (sint 64 (now t + 3600)))), g')).
Proof.
  split; [|split; [|split; [|split; [|split]]]].
  - intros server_socket pid t s. by rewrite search_serve.
  - intros G R server_socket pid t g.
    destruct (auth_serve server_socket pid t g) as (? & ? & _ & _ & ->). done.
  - intros server_socket pid t s g0 m0 full tail Hfd Hg Hm Hdrop Hall Hlen.
    rewrite search_serve, bool_decide_eq_false_2 by lia.
    by rewrite (long_value _ _ _ g0 m0 full tail) by done.
  - intros G R server_socket pid t g g0 m0 full tail Hfd Hg Hm Hdrop Hall Hlen.
    destruct (auth_serve server_socket pid t g) as (token & g' & Htok & _ & ->).
    exists token, g'. split; [done|].
    rewrite !bool_decide_eq_false_2 by lia.
    by rewrite (long_value _ _ _ g0 m0 full tail) by done.
  - intros r t pid fd g0 m0 full tail Hg Hm Hdrop Hall Hlen.
    destruct (extract_query r) as (query & Hq & Hlenq & Hstr & Hle).
    exists query. split; [done|]. split; [done|].
    rewrite (long_value _ _ _ g0 m0 full tail) in Hstr by done.
    split; [done|]. rewrite <- Hstr. by apply search_send_response.
  - intros G R r t pid fd g g0 m0 full tail Hg Hm Hdrop Hall Hlen.
    destruct (extract_user r) as (user & Hu & Hlenu & Hstr & Hle).
    destruct (auth_send_response t pid fd user g Hle)
      as (token & g' & _ & _ & Hsend).
    exists user, token, g'. split; [done|]. split; [done|].
    rewrite (long_value _ _ _ g0 m0 full tail) in Hstr by done.
    split; [done|]. by rewrite <- Hstr.
Qed.

Lemma long_value_truncated_witness :
  Search.serve 3 4242 (quiet_turn 4 long_request) ()
  = Some ([Accept 3 4; Recv 4 (recv_count long_request);
           Send 4
             (http_response
                (print_dec (Z.of_nat (length
                   (query_json (take 255 (replicate 300 "a"%char))
                      (sint 32 4242) (sint 64 1700000000)))))
                (query_json (take 255 (replicate 300 "a"%char))
                   (sint 32 4242) (sint 64 1700000000)));
           Close 4], ()).
Proof.
  apply (proj1 (proj2 (proj2 long_value_truncated))
           3 4242 (quiet_turn 4 long_request) () 0%nat 6%nat
           (replicate 300 "a"%char) (c_lit " HTTP/1.1")).
  - done.
  - apply (find_sub_drop_Some _ _ 0 0). by vm_compute.
  - apply (find_sub_drop_Some _ _ 0 6). by vm_compute.
  - by vm_compute.
  - compute_done.
  - rewrite length_replicate. lia.
Defined.

(** C5, as amended.  For every request, the Query Responder's body is
    the template of [search.c] filled with the extracted query, the
    process identifier and the current time; in it the three results are
    separated by a comma and a space.  The Token Issuer's body is the
    template of the specification, with a 32-character alphanumeric token
    and [expires] equal to the current time plus 3600. *)
Theorem bodies_follow_templates r t pid fd :
  - 2 ^ 31 ≤ pid < 2 ^ 31 → - 2 ^ 63 ≤ now t → now t + 3600 < 2 ^ 63 →
  (∃ query,
     extract (c_lit "q=") 2 (c_lit "default") (request_buffer r) = Some query ∧
     Search.query_of r = Some (c_str query 0) ∧
     Search.send_response t pid fd query
     = Some (Send fd
         (http_response
            (print_dec (Z.of_nat (length
               (query_json (c_str query 0) pid (now t)))))
            (query_json (c_str query 0) pid (now t)))))
  ∧ (∀ (G : Type) (R : RandGen G) (g : G), ∃ user token g',
     extract (c_lit "user=") 5 (c_lit "anonymous") (request_buffer r)
     = Some user ∧
     Auth.user_of r = Some (c_str user 0) ∧
     length token = 32%nat ∧ Forall (λ c, is_alnum c = true) token ∧
     Auth.send_response t pid fd user g
     = Some (Send fd
         (http_response
            (print_dec (Z.of_nat (length
               (token_json (c_str user 0) token pid (now t + 3600)))))
            (token_json (c_str user 0) token pid (now t + 3600))), g')).
Proof.
  intros Hpid Hnow Hexp.
  assert (Hp : sint 32 pid = pid) by (by apply sint_id).
  assert (Hn : sint 64 (now t) = now t).
  { apply sint_id; [lia|]. change (2 ^ (64 - 1)) with (2 ^ 63). lia. }
  assert (He : sint 64 (now t + 3600) = now t + 3600).
  { apply sint_id; [lia|]. change (2 ^ (64 - 1)) with (2 ^ 63). lia. }
  split.
  - destruct (extract_query r) as (query & Hq & _ & Hstr & Hlen).
    exists query. split; [done|]. split; [by rewrite query_of_spec, Hstr|].
    rewrite search_send_response by done. by rewrite Hp, Hn.
  - intros G R g.
    destruct (extract_user r) as (user & Hu & _ & Hstr & Hlen).
    destruct (auth_send_response t pid fd user g Hlen)
      as (token & g' & Hlen32 & Hall & Hsend).
    exists user, token, g'. split; [done|].
    split; [by rewrite user_of_spec, Hstr|]. split; [done|]. split; [done|].
    by rewrite Hp, He in Hsend.
Qed.

Lemma bodies_follow_templates_witness :
  (∃ query,
     extract (c_lit "q=") 2 (c_lit "default")
       (request_buffer (req "GET /search?q=hello HTTP/1.1\r\n\r\n"))
     = Some query ∧
     Search.query_of (req "GET /search?q=hello HTTP/1.1\r\n\r\n")
     = Some (c_str query 0) ∧
     Search.send_response
       (quiet_turn 4 (req "GET /search?q=hello HTTP/1.1\r\n\r\n")) 4242 4 query
     = Some (Send 4
         (http_response
            (print_dec (Z.of_nat (length
               (query_json (c_str query 0) 4242 1700000000))))
            (query_json (c_str query 0) 4242 1700000000)))).
Proof.
  apply (bodies_follow_templates
           (req "GET /search?q=hello HTTP/1.1\r\n\r\n")
           (quiet_turn 4 (req "GET /search?q=hello HTTP/1.1\r\n\r\n"))
           4242 4); simpl; lia.
Defined.

(** C5 as stated fails: the body the Query Responder sends for the query
    "hello" is not the specification's template, which has no space
    between the results. *)
Lemma query_body_not_spec_shape :
  ∃ query,
    extract (c_lit "q=") 2 (c_lit "default")
      (request_buffer (req "GET /search?q=hello HTTP/1.1\r\n\r\n"))
    = Some query ∧
    c_str query 0 = c_lit "hello" ∧
    Search.send_response
      (quiet_turn 4 (req "GET /search?q=hello HTTP/1.1\r\n\r\n")) 4242 4 query
    ≠ Some (Send 4
        (http_response
           (print_dec (Z.of_nat (length
              (query_json_spec (c_lit "hello") 4242 1700000000))))
           (query_json_spec (c_lit "hello") 4242 1700000000))).
Proof.
  eexists. split; [by vm_compute|]. split; [by vm_compute|].
  intros Heq. vm_compute in Heq. discriminate Heq.
Qed.

Lemma first_from_unique needle text from i j :
  first_from needle text from i → first_from needle text from j → i = j.
Proof.
  intros (Hi & Hoi & Hfi) (Hj & Hoj & Hfj).
  destruct (Nat.lt_trichotomy i j) as [Hlt | [Heq | Hgt]]; [|done|].
  - destruct (Hfj i); [lia | done].
  - destruct (Hfi j); [lia | done].
Qed.

(** The initial value stays exactly when the text has no "GET " or has
    no marker at or after its first "GET ". *)
Lemma keeps_default_spec marker r :
  keeps_default marker (request_buffer r) = true ↔
  absent (c_lit "GET ") (request_text r) ∨
  ∃ g, first_from (c_lit "GET ") (request_text r) 0 g ∧
       ∀ j, (g ≤ j)%nat → ¬ occurs_at marker (request_text r) j.
Proof.
  destruct (request_buffer_shape r) as (_ & Hn & _ & rest & Hbuf).
  unfold keeps_default. rewrite Hbuf.
  rewrite (strstr_text _ _ 0) by (done || lia). rewrite drop_0.
  destruct (find_sub (c_lit "GET ") (request_text r)) as [g|] eqn:Hget.
  - cbn [fmap option_fmap option_map].
    apply find_sub_Some in Hget.
    pose proof Hget as (_ & Hocc & _).
    apply occurs_at_length in Hocc; [|done].
    replace (Z.of_nat 0 + Z.of_nat g) with (Z.of_nat g) by lia.
    rewrite strstr_text by (done || lia).
    destruct (find_sub marker (drop g (request_text r))) as [k|] eqn:Hk.
    + cbn [fmap option_fmap option_map].
      apply find_sub_drop_Some in Hk as (_ & Hk & _).
      split; [done|]. intros [Habs | (g' & Hg' & Habs)].
      * destruct Hget as (_ & Hoccg & _). by destruct (Habs g).
      * rewrite (first_from_unique _ _ _ _ _ Hg' Hget) in Habs.
        destruct (Habs (g + k)%nat); [lia | done].
    + cbn [fmap option_fmap option_map]. split; [|done]. intros _. right.
      exists g. split; [done|]. by apply find_sub_drop_None.
  - cbn [fmap option_fmap option_map]. split; [|done]. intros _. left.
    by apply find_sub_None.
Qed.

Lemma empty_value marker default text g m :
  first_from (c_lit "GET ") text 0 g → first_from marker text g m →
  (drop (m + length marker) text = [] ∨
   ∃ c tail, drop (m + length marker) text = c :: tail ∧
             (c = " "%char ∨ c = "&"%char)) →
  param_of marker default text = [].
Proof.
  intros Hg Hm Hnext. rewrite (param_of_found _ _ _ _ _ Hg Hm).
  destruct Hnext as [-> | (c & tail & -> & [-> | ->])]; done.
Qed.

(** C10, as amended.  The extraction keeps the default exactly when the
    text has no "GET " or has no field marker at or after its first
    "GET ", and the default is then the result; a marker that stands only
    before the first "GET " does not count.
    Otherwise the result is the value after the first marker at or after
    the first "GET ", and when a space, an '&' or the end of the text
    follows that marker at once, the value is the empty string and the
    body carries an empty JSON string. *)
Theorem default_only_without_markers (r : recv_result) :
  (keeps_default (c_lit "q=") (request_buffer r) = true ↔
   absent (c_lit "GET ") (request_text r) ∨
   ∃ g, first_from (c_lit "GET ") (request_text r) 0 g ∧
        ∀ j, (g ≤ j)%nat → ¬ occurs_at (c_lit "q=") (request_text r) j)
  ∧ (keeps_default (c_lit "user=") (request_buffer r) = true ↔
     absent (c_lit "GET ") (request_text r) ∨
     ∃ g, first_from (c_lit "GET ") (request_text r) 0 g ∧
          ∀ j, (g ≤ j)%nat → ¬ occurs_at (c_lit "user=") (request_text r) j)
  ∧ ((absent (c_lit "GET ") (request_text r) ∨
    ∃ g, first_from (c_lit "GET ") (request_text r) 0 g ∧
         ∀ j, (g ≤ j)%nat → ¬ occurs_at (c_lit "q=") (request_text r) j) →
   Search.query_of r = Some (c_lit "default"))
  ∧ (∀ g m,
       first_from (c_lit "GET ") (request_text r) 0 g →
       first_from (c_lit "q=") (request_text r) g m →
       (∃ v, value_of (drop (m + 2) (request_text r)) v ∧
             Search.query_of r = Some v) ∧
       ((drop (m + 2) (request_text r) = [] ∨
         ∃ c tail, drop (m + 2) (request_text r) = c :: tail ∧
                   (c = " "%char ∨ c = "&"%char)) →
        Search.query_of r = Some [] ∧
        ∀ t pid fd, ∃ query,
          extract (c_lit "q=") 2 (c_lit "default") (request_buffer r)
          = Some query ∧
          Search.send_response t pid fd query
          = Some (Send fd
              (http_response
                 (print_dec (Z.of_nat (length
                    (query_json [] (sint 32 pid) (sint 64 (now t))))))
                 (query_json [] (sint 32 pid) (sint 64 (now t)))))))
  ∧ ((absent (c_lit "GET ") (request_text r) ∨
      ∃ g, first_from (c_lit "GET ") (request_text r) 0 g ∧
           ∀ j, (g ≤ j)%nat → ¬ occurs_at (c_lit "user=") (request_text r) j) →
     Auth.user_of r = Some (c_lit "anonymous"))
  ∧ (∀ g m,
       first_from (c_lit "GET ") (request_text r) 0 g →
       first_from (c_lit "user=") (request_text r) g m →
       (∃ v, value_of (drop (m + 5) (request_text r)) v ∧
             Auth.user_of r = Some v) ∧
       ((drop (m + 5) (request_text r) = [] ∨
         ∃ c tail, drop (m + 5) (request_text r) = c :: tail ∧
                   (c = " "%char ∨ c = "&"%char)) →
        Auth.user_of r = Some [] ∧
        ∀ (G : Type) (R : RandGen G) t pid fd (g : G), ∃ user token g',
          extract (c_lit "user=") 5 (c_lit "anonymous") (request_buffer r)
          = Some user ∧
          Auth.send_response t pid fd user g
          = Some (Send fd
              (http_response
                 (print_dec (Z.of_nat (length
                    (token_json [] token (sint 32 pid)
                       (sint 64 (now t + 3600))))))
                 (token_json [] token (sint 32 pid)
                    (sint 64 (now t + 3600)))), g'))).
Proof.
  split; [apply keeps_default_spec|]. split; [apply keeps_default_spec|].
  rewrite query_of_spec, user_of_spec.
  split; [|split; [|split]].
  - intros [Habs | (g & Hg & Habs)]; f_equal.
    + by apply param_of_no_get.
    + by apply (param_of_no_marker _ _ _ g).
  - intros g m Hg Hm. split.
    + rewrite (param_of_found _ _ _ _ _ Hg Hm). eexists. split; [|done].
      apply value_of_upto_delim, request_text_no_nul.
    + intros Hnext.
      pose proof (empty_value (c_lit "q=") (c_lit "default") _ g m Hg Hm Hnext)
        as Hempty.
      split; [by rewrite Hempty|]. intros t pid fd.
      destruct (extract_query r) as (query & Hq & _ & Hstr & Hlen).
      exists query. split; [done|].
      rewrite search_send_response by done. by rewrite Hstr, Hempty.
  - intros [Habs | (g & Hg & Habs)]; f_equal.
    + by apply param_of_no_get.
    + by apply (param_of_no_marker _ _ _ g).
  - intros g m Hg Hm. split.
    + rewrite (param_of_found _ _ _ _ _ Hg Hm). eexists. split; [|done].
      apply value_of_upto_delim, request_text_no_nul.
    + intros Hnext.
      pose proof (empty_value (c_lit "user=") (c_lit "anonymous") _ g m Hg Hm Hnext)
        as Hempty.
      split; [by rewrite Hempty|]. intros G R t pid fd gen.
      destruct (extract_user r) as (user & Hu & _ & Hstr & Hlen).
      destruct (auth_send_response t pid fd user gen Hlen)
        as (token & g' & _ & _ & Hsend).
      exists user, token, g'. split; [done|].
      by rewrite Hstr, Hempty in Hsend.
Qed.

Lemma default_only_without_markers_witness :
  Search.query_of (req "q=1 GET /x") = Some (c_lit "default")
  ∧ Search.query_of (req "GET /x?q=&y") = Some [].
Proof.
  split.
  - apply (proj1 (proj2 (proj2 (default_only_without_markers (req "q=1 GET /x"))))).
    right. exists 4%nat. split.
    + apply (find_sub_drop_Some _ _ 0 4). by vm_compute.
    + apply find_sub_drop_None. by vm_compute.
  - apply (proj1 (proj2 (proj2 (proj2
             (default_only_without_markers (req "GET /x?q=&y")))))
             0%nat 7%nat).
    + apply (find_sub_drop_Some _ _ 0 0). by vm_compute.
    + apply (find_sub_drop_Some _ _ 0 7). by vm_compute.
    + right. exists "&"%char, (c_lit "y"). split; [by vm_compute | by right].
Defined.

(** C10 as stated fails: in "q=1 GET /x" neither marker is absent, yet
    the result is the default, the only "q=" standing before "GET ". *)
Lemma default_despite_both_markers :
  occurs_at (c_lit "GET ") (request_text (req "q=1 GET /x")) 4
  ∧ occurs_at (c_lit "q=") (request_text (req "q=1 GET /x")) 0
  ∧ Search.query_of (req "q=1 GET /x") = Some (c_lit "default")
  ∧ ¬ (∀ r, Search.query_of r = Some (c_lit "default") ↔
            absent (c_lit "GET ") (request_text r) ∨
            absent (c_lit "q=") (request_text r)).
Proof.
  assert (Hget : occurs_at (c_lit "GET ") (request_text (req "q=1 GET /x")) 4)
    by compute_done.
  assert (Hq : occurs_at (c_lit "q=") (request_text (req "q=1 GET /x")) 0)
    by compute_done.
  assert (Hd : Search.query_of (req "q=1 GET /x") = Some (c_lit "default"))
    by by vm_compute.
  split; [done|]. split; [done|]. split; [done|].
  intros Hall. destruct (proj1 (Hall _) Hd) as [Habs | Habs].
  - by apply (Habs 4%nat).
  - by apply (Habs 0%nat).
Qed.

(** ** Start-up *)

Lemma usage_text argv0 :
  format (c_lit "Usage: %s <port>\n") [ArgStr argv0]
  = c_lit "Usage: " ++ argv0 ++ c_lit " <port>\n".
Proof. done. Qed.

(** When a start-up call fails, [listen_on] ends with the [perror] line of
    the first failing call and the exit status 1, and calls no [accept]. *)
Lemma listen_on_fails b argv1 :
  setup_fails b →
  ∃ ev,
    listen_on b argv1
    = (ev ++ [Stderr (perror (first_failure b).1 (first_failure b).2)], inr 1)
    ∧ Forall (λ e, is_accept e = false) ev.
Proof.
  intros Hfail. unfold listen_on, first_failure.
  repeat case_bool_decide; try (unfold setup_fails in Hfail; lia).
  - exists [Socket (ret (r_socket b))]. split; [done|]. by repeat constructor.
  - exists [Socket (ret (r_socket b));
            Setsockopt (ret (r_socket b)) (ret (r_setsockopt b))].
    split; [done|]. by repeat constructor.
  - exists [Socket (ret (r_socket b));
            Setsockopt (ret (r_socket b)) (ret (r_setsockopt b));
            Bind (ret (r_socket b)) (atoi argv1 `mod` 65536) (ret (r_bind b))].
    split; [done|]. by repeat constructor.
  - exists [Socket (ret (r_socket b));
            Setsockopt (ret (r_socket b)) (ret (r_setsockopt b));
            Bind (ret (r_socket b)) (atoi argv1 `mod` 65536) (ret (r_bind b));
            Listen (ret (r_socket b)) 10 (ret (r_listen b))].
    split; [done|]. by repeat constructor.
Qed.


Lemma listen_on_no_srand b argv1 :
  Forall (λ e, is_srand e = false) (listen_on b argv1).1.
Proof.
  unfold listen_on. repeat case_bool_decide; by repeat constructor.
Qed.

(** C8. Started with any number of arguments other than one, either
    server writes the usage line to standard error and exits with status
    1.  Started with one argument, if [socket], [setsockopt], [bind] or
    [listen] fails, the server writes the [perror] line of the first
    failing call, which carries the system's error text, as its last
    output and exits with status 1, having called [accept] not once. *)
Theorem startup_errors_exit_1 argv0 args b turns :
  (length args ≠ 1%nat →
   Search.main argv0 args b turns
   = Some ([Stderr (c_lit "Usage: " ++ argv0 ++ c_lit " <port>\n")], Exited 1)
   ∧ ∀ (G : Type) (R : RandGen G),
       Auth.main (G := G) argv0 args b turns
       = Some ([Stderr (c_lit "Usage: " ++ argv0 ++ c_lit " <port>\n")],
               Exited 1))
  ∧ (length args = 1%nat → setup_fails b →
     (∃ ev,
        Search.main argv0 args b turns
        = Some (ev ++ [Stderr ((first_failure b).1 ++ c_lit ": "
                               ++ (first_failure b).2 ++ c_lit "\n")],
                Exited 1)
        ∧ Forall (λ e, is_accept e = false) ev)
     ∧ ∀ (G : Type) (R : RandGen G),
       ∃ ev,
         Auth.main (G := G) argv0 args b turns
         = Some (ev ++ [Stderr ((first_failure b).1 ++ c_lit ": "
                                ++ (first_failure b).2 ++ c_lit "\n")],
                 Exited 1)
         ∧ Forall (λ e, is_accept e = false) ev).
Proof.
  split.
  - intros Hargs. unfold Search.main, Auth.main.
    destruct args as [|argv1 [|argv2 args]]; simpl in Hargs; try lia;
      rewrite usage_text; by split.
  - intros Hargs Hfail.
    destruct args as [|argv1 [|argv2 args]]; simpl in Hargs; try lia.
    destruct (listen_on_fails b argv1 Hfail) as (ev & Hev & Hacc).
    unfold Search.main, Auth.main. rewrite Hev. split.
    + exists ([Signal SIGTERM; Signal SIGINT] ++ ev).
      split; [by rewrite <- app_assoc|].
      apply Forall_app. split; [by repeat constructor | done].
    + intros G R.
      exists ([Signal SIGTERM; Signal SIGINT;
               Srand (Z.lxor (boot_time b) (boot_pid b) `mod` 2 ^ 32)] ++ ev).
      split; [by rewrite <- app_assoc|].
      apply Forall_app. split; [by repeat constructor | done].
Qed.

Lemma startup_errors_exit_1_witness :
  Search.main (c_lit "search") [] quiet_boot []
  = Some ([Stderr (c_lit "Usage: search <port>\n")], Exited 1)
  ∧ ∃ ev,
      Search.main (c_lit "search") [c_lit "8080"] failing_boot []
      = Some (ev ++ [Stderr (c_lit "Bind failed: Address already in use\n")],
              Exited 1)
      ∧ Forall (λ e, is_accept e = false) ev.
Proof.
  split.
  - apply (proj1 (startup_errors_exit_1 (c_lit "search") [] quiet_boot [])).
    simpl. lia.
  - apply (proj2 (startup_errors_exit_1 (c_lit "search") [c_lit "8080"]
                    failing_boot [])); [done|].
    right. right. left. simpl. lia.
Defined.

(** ** The accept loop *)

Lemma count_accepts_turn server_socket ev rest :
  turn_events server_socket ev →
  length (filter (λ e, is_accept e = true) (ev ++ rest))
  = S (length (filter (λ e, is_accept e = true) rest)).
Proof. by intros [fd Hfd | fd n bytes Hfd]. Qed.

(** A loop whose body performs one whole turn each time runs through all
    the turns it is given, in sequence. *)
Lemma accept_loop_turns {S : Type} (body : turn → S → option (list event * S))
    server_socket :
  (∀ t s, ∃ ev s', body t s = Some (ev, s') ∧ turn_events server_socket ev) →
  ∀ turns s, ∃ ev s',
    accept_loop body turns s = Some (ev, s') ∧
    sequential server_socket ev ∧
    length (filter (λ e, is_accept e = true) ev) = length turns.
Proof.
  intros Hbody turns. induction turns as [|t turns IH]; intros s.
  - exists [], s. split; [done|]. split; [constructor | done].
  - destruct (Hbody t s) as (ev & s1 & Hev & Hturn).
    destruct (IH s1) as (ev' & s2 & Hev' & Hseq & Hcount).
    exists (ev ++ ev'), s2. cbn [accept_loop].
    rewrite Hev, bind_Some, Hev', bind_Some.
    split; [done|]. split; [by constructor|].
    by rewrite (count_accepts_turn server_socket), Hcount.
Qed.

Lemma search_serve_turn server_socket pid t s :
  ∃ ev s', Search.serve server_socket pid t s = Some (ev, s') ∧
           turn_events server_socket ev.
Proof.
  rewrite search_serve. eexists _, _. split; [done|].
  case_bool_decide; constructor; lia.
Qed.

Lemma auth_serve_turn {G : Type} `{RandGen G} server_socket pid t (g : G) :
  ∃ ev g', Auth.serve server_socket pid t g = Some (ev, g') ∧
           turn_events server_socket ev.
Proof.
  destruct (auth_serve server_socket pid t g) as (token & g' & _ & _ & ->).
  eexists _, _. split; [done|]. case_bool_decide; constructor; lia.
Qed.



(** ** How the token's characters are distributed *)

Lemma charset_lookup_inj (i j : nat) c :
  (i < 62)%nat → (j < 62)%nat →
  Auth.charset !! i = Some c → Auth.charset !! j = Some c → i = j.
Proof.
  intros Hi Hj Hci Hcj.
  assert (Hnd : NoDup (take 62 Auth.charset)) by compute_done.
  eapply NoDup_lookup; [exact Hnd | |]; by rewrite lookup_take_lt by lia.
Qed.

Lemma pick_residue r (k : nat) c :
  0 ≤ r < 2 ^ 64 → (k < 62)%nat → Auth.charset !! k = Some c →
  Auth.pick r = Some c ↔ r `mod` 62 = Z.of_nat k.
Proof.
  intros Hr Hk Hc. unfold Auth.pick.
  change (Z.of_nat (length Auth.charset) - 1) with 62.
  rewrite (Z.mod_small r) by done.
  pose proof (Z.mod_pos_bound r 62 ltac:(lia)) as Hi.
  unfold load. rewrite bool_decide_eq_true_2 by lia. split.
  - intros Hpick.
    assert (Z.to_nat (r `mod` 62) = k) by (eapply charset_lookup_inj; [lia|..]; done).
    lia.
  - intros ->. by rewrite Nat2Z.id.
Qed.

(** Among the numbers below [n], those congruent to [k] modulo 62. *)
Lemma count_residue (n k : nat) :
  (k < 62)%nat →
  length (filter (λ r, r `mod` 62 = Z.of_nat k) (seqZ 0 (Z.of_nat n)))
  = Z.to_nat (Z.of_nat n / 62
              + (if bool_decide (Z.of_nat k < Z.of_nat n `mod` 62) then 1 else 0)).
Proof.
  intros Hk. induction n as [|n IH].
  - change (Z.of_nat 0 `mod` 62) with 0. change (Z.of_nat 0 `div` 62) with 0.
    by rewrite bool_decide_eq_false_2 by lia.
  - rewrite Nat2Z.inj_succ, <- Z.add_1_r, seqZ_app by lia.
    rewrite filter_app, length_app, IH. clear IH.
    change (seqZ (0 + Z.of_nat n) 1) with [0 + Z.of_nat n].
    rewrite Z.add_0_l, filter_cons, filter_nil.
    pose proof (Z.div_mod (Z.of_nat n) 62 ltac:(lia)).
    pose proof (Z.mod_pos_bound (Z.of_nat n) 62 ltac:(lia)).
    pose proof (Z.div_mod (Z.of_nat n + 1) 62 ltac:(lia)).
    pose proof (Z.mod_pos_bound (Z.of_nat n + 1) 62 ltac:(lia)).
    assert (0 ≤ Z.of_nat n / 62) by (apply Z.div_pos; lia).
    assert (0 ≤ (Z.of_nat n + 1) / 62) by (apply Z.div_pos; lia).
    repeat case_bool_decide; case_decide; simpl; lia.
Qed.

Lemma filter_agree (P Q : Z → Prop) `{∀ x, Decision (P x)}
    `{∀ x, Decision (Q x)} (l : list Z) :
  (∀ x, x ∈ l → P x ↔ Q x) → filter P l = filter Q l.
Proof.
  induction l as [|x l IH]; intros Hpq; [done|].
  rewrite !filter_cons.
  rewrite IH by (intros y Hy; apply Hpq; by right).
  destruct (Hpq x ltac:(by left)). by repeat case_decide; try tauto.
Qed.

Lemma raw_results_seqZ n : ∀ from, raw_results n from = seqZ from (Z.of_nat n).
Proof.
  induction n as [|n IH]; intros from; [done|].
  rewrite seqZ_cons by lia. cbn [raw_results]. rewrite IH. do 2 f_equal; lia.
Qed.

Lemma selections_closed_form rand_max (k : nat) c :
  0 ≤ rand_max < 2 ^ 63 → (k < 62)%nat → Auth.charset !! k = Some c →
  selections rand_max c
  = (rand_max + 1) / 62
    + (if bool_decide (Z.of_nat k < (rand_max + 1) `mod` 62) then 1 else 0).
Proof.
  intros Hmax Hk Hc. unfold selections.
  rewrite raw_results_seqZ, Z2Nat.id by lia.
  pose proof (count_residue (Z.to_nat (rand_max + 1)) k Hk) as Hcount.
  rewrite Z2Nat.id in Hcount by lia.
  assert (0 ≤ (rand_max + 1) / 62) by (apply Z.div_pos; lia).
  rewrite <- (Z2Nat.id (_ / 62 + _)) by (case_bool_decide; lia).
  rewrite <- Hcount. f_equal. f_equal.
  apply filter_agree. intros r Hr.
  apply elem_of_seqZ in Hr. apply pick_residue; [|done..].
  assert (2 ^ 63 < 2 ^ 64) by done. lia.
Qed.

Lemma sequential_no_srand server_socket ev :
  sequential server_socket ev → Forall (λ e, is_srand e = false) ev.
Proof.
  induction 1 as [|ev rest Hturn _ IH]; [constructor|].
  apply Forall_app. split; [|done].
  destruct Hturn; by repeat constructor.
Qed.

(** The Token Issuer seeds the generator once, before any other call,
    and the loop starts from the seeded state. *)
Lemma auth_main_seeds_once {G : Type} `{RandGen G} argv0 argv1 b turns :
  ∃ rest out,
    Auth.main (G := G) argv0 [argv1] b turns
    = Some ([Signal SIGTERM; Signal SIGINT;
             Srand (Z.lxor (boot_time b) (boot_pid b) `mod` 2 ^ 32)] ++ rest,
            out) ∧
    Forall (λ e, is_srand e = false) rest.
Proof.
  unfold Auth.main.
  pose proof (listen_on_no_srand b argv1) as Hlisten.
  destruct (listen_on b argv1) as [ev [[server_socket port] | status]].
  - destruct (accept_loop_turns (Auth.serve server_socket (boot_pid b))
                server_socket (λ t g, auth_serve_turn _ _ t g) turns
                (srand (Z.lxor (boot_time b) (boot_pid b) `mod` 2 ^ 32)))
      as (served & g' & Hloop & Hseq & _).
    rewrite Hloop, bind_Some. eexists _, _. split; [done|].
    apply Forall_app. split; [done|]. constructor; [done|].
    by eapply sequential_no_srand.
  - by eexists _, _.
Qed.

Lemma uniform_iff_divides rand_max :
  0 ≤ rand_max < 2 ^ 63 →
  (∀ c1 c2, c1 ∈ take 62 Auth.charset → c2 ∈ take 62 Auth.charset →
            selections rand_max c1 = selections rand_max c2)
  ↔ (rand_max + 1) `mod` 62 = 0.
Proof.
  intros Hmax.
  pose proof (Z.mod_pos_bound (rand_max + 1) 62 ltac:(lia)) as Hmod.
  split.
  - intros Hall.
    assert (Ha : Auth.charset !! 0%nat = Some "a"%char) by done.
    assert (H9 : Auth.charset !! 61%nat = Some "9"%char) by done.
    specialize (Hall "a"%char "9"%char ltac:(compute_done) ltac:(compute_done)).
    rewrite (selections_closed_form _ 0 "a") in Hall by (done || lia).
    rewrite (selections_closed_form _ 61 "9") in Hall by (done || lia).
    repeat case_bool_decide; lia.
  - intros Hzero c1 c2 Hc1 Hc2.
    apply list_elem_of_lookup_1 in Hc1 as [k1 Hk1], Hc2 as [k2 Hk2].
    pose proof (lookup_lt_Some _ _ _ Hk1) as Hlt1.
    pose proof (lookup_lt_Some _ _ _ Hk2) as Hlt2.
    rewrite length_take in Hlt1, Hlt2.
    rewrite lookup_take_lt in Hk1, Hk2 by lia.
    rewrite (selections_closed_form _ k1 c1), (selections_closed_form _ k2 c2)
      by (done || lia).
    rewrite Hzero. by rewrite !bool_decide_eq_false_2 by lia.
Qed.

(** No power of two is a multiple of 62: with RAND_MAX of the form
    2^k - 1, as the C libraries have it, the characters are never equally
    likely. *)
Lemma power_of_two_mod_62 (k : nat) : 2 ^ Z.of_nat k `mod` 62 ≠ 0.
Proof.
  assert (Hcycle : 2 ^ Z.of_nat k `mod` 31 = 1 ∨ 2 ^ Z.of_nat k `mod` 31 = 2 ∨
                   2 ^ Z.of_nat k `mod` 31 = 4 ∨ 2 ^ Z.of_nat k `mod` 31 = 8 ∨
                   2 ^ Z.of_nat k `mod` 31 = 16).
  { induction k as [|k IH]; [by left|].
    rewrite Nat2Z.inj_succ, Z.pow_succ_r, Z.mul_mod by lia.
    destruct IH as [-> | [-> | [-> | [-> | ->]]]]; compute; tauto. }
  intros Hzero.
  pose proof (Z.div_mod (2 ^ Z.of_nat k) 62 ltac:(lia)) as H62.
  pose proof (Z.div_mod (2 ^ Z.of_nat k) 31 ltac:(lia)) as H31.
  rewrite Hzero in H62.
  assert (H0 : 2 ^ Z.of_nat k `mod` 31 = 0).
  { rewrite H62. replace (62 * (2 ^ Z.of_nat k `div` 62) + 0)
      with ((2 * (2 ^ Z.of_nat k `div` 62)) * 31) by lia.
    apply Z.mod_mul. lia. }
  lia.
Qed.

(** C6, as amended.  The Token Issuer seeds the generator once, at the
    start and before the loop, with the time exclusive-ORed with the
    process identifier (as an unsigned 32-bit number).  If the raw results
    are uniform over [0, rand_max], the character at index [k] of the
    alphabet is selected by (rand_max + 1) / 62 of them, and by one more
    when [k] is below the remainder of that division; so the 62
    characters are equally likely exactly when 62 divides rand_max + 1,
    and otherwise their probabilities differ by 1 / (rand_max + 1), as
    they do whenever rand_max + 1 is a power of two. *)
Theorem token_characters_nearly_uniform :
  (∀ (G : Type) (R : RandGen G) argv0 argv1 b turns,
     ∃ rest out,
       Auth.main (G := G) argv0 [argv1] b turns
       = Some ([Signal SIGTERM; Signal SIGINT;
                Srand (Z.lxor (boot_time b) (boot_pid b) `mod` 2 ^ 32)] ++ rest,
               out) ∧
       Forall (λ e, is_srand e = false) rest)
  ∧ (∀ rand_max, 0 ≤ rand_max < 2 ^ 31 →
       (∀ (k : nat) c, (k < 62)%nat → Auth.charset !! k = Some c →
          selections rand_max c
          = (rand_max + 1) / 62
            + (if bool_decide (Z.of_nat k < (rand_max + 1) `mod` 62)
               then 1 else 0))
       ∧ ((∀ c1 c2, c1 ∈ take 62 Auth.charset → c2 ∈ take 62 Auth.charset →
                    selections rand_max c1 = selections rand_max c2)
          ↔ (rand_max + 1) `mod` 62 = 0)
       ∧ ((∃ k : nat, rand_max = 2 ^ Z.of_nat k - 1) →
          selections rand_max "a"%char = selections rand_max "9"%char + 1)).
Proof.
  split.
  - intros G R argv0 argv1 b turns. apply auth_main_seeds_once.
  - intros rand_max Hmax.
    assert (2 ^ 31 < 2 ^ 63) by done.
    split; [|split].
    + intros k c Hk Hc. apply selections_closed_form; [lia | done | done].
    + apply uniform_iff_divides. lia.
    + intros [k ->].
      pose proof (power_of_two_mod_62 k) as Hne.
      replace (2 ^ Z.of_nat k - 1 + 1) with (2 ^ Z.of_nat k) in * by lia.
      pose proof (Z.mod_pos_bound (2 ^ Z.of_nat k) 62 ltac:(lia)) as Hmod.
      rewrite (selections_closed_form _ 0 "a"%char) by (done || lia).
      rewrite (selections_closed_form _ 61 "9"%char) by (done || lia).
      replace (2 ^ Z.of_nat k - 1 + 1) with (2 ^ Z.of_nat k) by lia.
      rewrite bool_decide_eq_true_2, bool_decide_eq_false_2 by lia. lia.
Qed.

Lemma token_characters_nearly_uniform_witness :
  selections 32767 "a"%char = 529 ∧ selections 32767 "9"%char = 528.
Proof.
  destruct (proj2 token_characters_nearly_uniform 32767) as [Hsel _].
  { assert (32767 < 2 ^ 31) by done. lia. }
  split.
  - by rewrite (Hsel 0%nat "a"%char) by (done || lia).
  - by rewrite (Hsel 61%nat "9"%char) by (done || lia).
Defined.

(** C6 as stated fails: with the C library's RAND_MAX, 2147483647, as
    with the least RAND_MAX the C standard allows, 32767, 'a' is selected
    by one raw result more than '9'. *)
Lemma token_characters_not_uniform :
  selections 32767 "a"%char = 529
  ∧ selections 32767 "9"%char = 528
  ∧ selections 2147483647 "a"%char = 34636834
  ∧ selections 2147483647 "9"%char = 34636833
  ∧ ¬ (∀ c1 c2, c1 ∈ take 62 Auth.charset → c2 ∈ take 62 Auth.charset →
                selections 2147483647 c1 = selections 2147483647 c2).
Proof.
  split; [by vm_compute|]. split; [by vm_compute|].
  assert (Hsel : selections 2147483647 "a"%char = 34636834
                 ∧ selections 2147483647 "9"%char = 34636833).
  { split.
    - by rewrite (selections_closed_form _ 0 "a"%char) by (done || lia).
    - by rewrite (selections_closed_form _ 61 "9"%char) by (done || lia). }
  destruct Hsel as [Ha H9].
  split; [exact Ha|]. split; [exact H9|].
  intros Hall.
  assert (Heq : selections 2147483647 "a"%char = selections 2147483647 "9"%char)
    by (apply Hall; compute_done).
  rewrite Ha, H9 in Heq. discriminate Heq.
Qed.

(** * Further properties *)

(** ** What the extraction returns, for every request *)

Lemma param_of_no_delim marker default text :
  Forall (λ c, is_delim c = false) default →
  Forall (λ c, is_delim c = false) (param_of marker default text).
Proof.
  intros Hd. unfold param_of.
  destruct (find_sub _ text) as [g|]; [|done].
  destruct (find_sub marker _) as [k|]; [|done].
  apply Forall_take, upto_delim_no_delim.
Qed.

(** The extraction always returns a parameter, of at most 255
    characters, none of which is a zero byte, a space or an '&'. *)
Theorem parameter_bounded_and_clean (r : recv_result) :
  (∃ q, Search.query_of r = Some q ∧ (length q ≤ 255)%nat ∧
        Forall (λ c, c ≠ NUL ∧ c ≠ " "%char ∧ c ≠ "&"%char) q)
  ∧ (∃ u, Auth.user_of r = Some u ∧ (length u ≤ 255)%nat ∧
          Forall (λ c, c ≠ NUL ∧ c ≠ " "%char ∧ c ≠ "&"%char) u).
Proof.
  rewrite query_of_spec, user_of_spec. split; eexists; (split; [done|]).
  - split; [apply param_of_length; vm_compute; lia|].
    eapply Forall_impl; [apply param_of_no_delim; compute_done|].
    apply is_delim_false.
  - split; [apply param_of_length; vm_compute; lia|].
    eapply Forall_impl; [apply param_of_no_delim; compute_done|].
    apply is_delim_false.
Qed.

(** ** A zero byte in the request *)

Lemma request_text_cut pre post :
  NUL ∉ pre → (length pre ≤ 1022)%nat →
  request_text (Received (pre ++ NUL :: post)) = pre.
Proof.
  intros Hn Hlen. unfold request_text, c_str.
  rewrite request_buffer_received, drop_0.
  rewrite take_app_ge by lia.
  replace (1023 - length pre)%nat with (S (1022 - length pre)) by lia.
  cbn [take]. rewrite <- app_assoc. by apply until_nul_app.
Qed.

(** A zero byte among the received bytes ends the request for the
    program: what follows it is not searched, and the parameter is that
    of the bytes before it. *)
Theorem zero_byte_hides_the_rest pre post :
  NUL ∉ pre → (length pre ≤ 1022)%nat →
  request_text (Received (pre ++ NUL :: post)) = pre
  ∧ Search.query_of (Received (pre ++ NUL :: post))
    = Search.query_of (Received pre)
  ∧ Auth.user_of (Received (pre ++ NUL :: post))
    = Auth.user_of (Received pre).
Proof.
  intros Hn Hlen. rewrite !query_of_spec, !user_of_spec.
  by rewrite request_text_cut, request_text_id by (done || lia).
Qed.

Lemma zero_byte_hides_the_rest_witness :
  request_text (Received (c_lit "GET /x" ++ NUL :: c_lit "?q=abc"))
  = c_lit "GET /x"
  ∧ Search.query_of (Received (c_lit "GET /x" ++ NUL :: c_lit "?q=abc"))
    = Search.query_of (Received (c_lit "GET /x"))
  ∧ Auth.user_of (Received (c_lit "GET /x" ++ NUL :: c_lit "?q=abc"))
    = Auth.user_of (Received (c_lit "GET /x")).
Proof.
  apply (zero_byte_hides_the_rest (c_lit "GET /x") (c_lit "?q=abc")).
  - compute_done.
  - simpl. lia.
Defined.

(** ** A value sent is the value extracted *)

Lemma occurs_at_lookup needle text i (k : nat) c :
  occurs_at needle text i → needle !! k = Some c → text !! (i + k)%nat = Some c.
Proof.
  intros [rest Hrest] Hk. rewrite <- lookup_drop, Hrest.
  by apply lookup_app_l_Some.
Qed.

(** In "GET " ++ path ++ name ++ "=" ++ ..., where neither [path] nor
    [name] holds an '=', the marker [name ++ "="] does not occur before
    the end of [path]. *)
Lemma no_marker_in_path name path rest j :
  "="%char ∉ path → "="%char ∉ name →
  (j < 4 + length path)%nat →
  ¬ occurs_at (name ++ ["="%char])
      (c_lit "GET " ++ path ++ (name ++ ["="%char]) ++ rest) j.
Proof.
  intros Hpath Hname Hj Hocc.
  pose proof (occurs_at_lookup _ _ j (length name) "="%char Hocc
                (list_lookup_middle name [] _ _ eq_refl)) as Hl.
  rewrite !app_assoc, <- (app_assoc _ ["="%char]) in Hl.
  rewrite lookup_app_l in Hl by (rewrite !length_app; simpl; lia).
  apply list_elem_of_lookup_2 in Hl.
  assert (Hget : "="%char ∉ c_lit "GET ") by compute_done.
  rewrite !elem_of_app in Hl. tauto.
Qed.

Lemma echoed name default path v tail r :
  "="%char ∉ path → "="%char ∉ name → name ≠ [] →
  request_text r
  = c_lit "GET " ++ path ++ (name ++ ["="%char]) ++ v ++ tail →
  Forall (λ c, c ≠ " "%char ∧ c ≠ "&"%char) v → (length v ≤ 255)%nat →
  (tail = [] ∨ ∃ c t, tail = c :: t ∧ (c = " "%char ∨ c = "&"%char)) →
  param_of (name ++ ["="%char]) default (request_text r) = v.
Proof.
  intros Hpath Hname Hne Htext Hv Hlen Htail.
  destruct (raw_substring (name ++ ["="%char]) default r [] path (v ++ tail))
    as (v' & Hv' & ->).
  - exact Htext.
  - simpl. lia.
  - intros j Hj. rewrite Htext. apply no_marker_in_path; [done | done |].
    simpl in Hj. lia.
  - apply (value_of_unique (v ++ tail)); [done|].
    exists tail. split; [done|]. split; [done|]. split; [done|]. tauto.
Qed.

(** Whatever a client puts after the first key of a GET request, "q=" or
    "user=", comes back as the parameter, byte for byte, quotes and
    backslashes included, provided it is at most 255 bytes without zero
    byte, space or '&' and is followed by a space, an '&' or nothing, and
    the request is at most 1023 bytes. *)
Theorem value_echoed path v tail :
  "="%char ∉ path → NUL ∉ path ++ v ++ tail →
  Forall (λ c, c ≠ " "%char ∧ c ≠ "&"%char) v → (length v ≤ 255)%nat →
  (tail = [] ∨ ∃ c t, tail = c :: t ∧ (c = " "%char ∨ c = "&"%char)) →
  (length (path ++ v ++ tail) ≤ 1014)%nat →
  Search.query_of (Received (c_lit "GET " ++ path ++ c_lit "q=" ++ v ++ tail))
  = Some v
  ∧ Auth.user_of (Received (c_lit "GET " ++ path ++ c_lit "user=" ++ v ++ tail))
    = Some v.
Proof.
  intros Hpath Hnul Hv Hlen Htail Htotal.
  rewrite !length_app in Htotal.
  rewrite !not_elem_of_app in Hnul. destruct Hnul as (Hn1 & Hn2 & Hn3).
  rewrite query_of_spec, user_of_spec. split; f_equal.
  - apply (echoed (c_lit "q") _ path v tail); try done; [compute_done|].
    apply request_text_id.
    + rewrite !not_elem_of_app. repeat split; try done; compute_done.
    + rewrite !length_app. simpl. lia.
  - apply (echoed (c_lit "user") _ path v tail); try done; [compute_done|].
    apply request_text_id.
    + rewrite !not_elem_of_app. repeat split; try done; compute_done.
    + rewrite !length_app. simpl. lia.
Qed.

Lemma value_echoed_witness :
  Search.query_of
    (Received (c_lit "GET " ++ c_lit "/search?" ++ c_lit "q="
               ++ c_lit "a','x':'\" ++ c_lit " HTTP/1.1\r\n\r\n"))
  = Some (c_lit "a','x':'\")
  ∧ Auth.user_of
      (Received (c_lit "GET " ++ c_lit "/search?" ++ c_lit "user="
                 ++ c_lit "a','x':'\" ++ c_lit " HTTP/1.1\r\n\r\n"))
    = Some (c_lit "a','x':'\").
Proof.
  apply (value_echoed (c_lit "/search?") (c_lit "a','x':'\")
           (c_lit " HTTP/1.1\r\n\r\n")).
  - compute_done.
  - compute_done.
  - compute_done.
  - simpl. lia.
  - right. eexists _, _. split; [reflexivity|]. by left.
  - simpl. lia.
Defined.

(** ** [generate_token] on any array and length *)

Lemma pick_Some r : ∃ c, Auth.pick r = Some c.
Proof. destruct (pick_alnum r) as (c & Hc & _). by exists c. Qed.

Lemma omap_pick_length (rs : list Z) : length (omap Auth.pick rs) = length rs.
Proof.
  induction rs as [|r rs IH]; [done|]. cbn [omap list_omap].
  destruct (pick_Some r) as [c ->]. cbn [length]. by rewrite <- IH.
Qed.

Lemma omap_pick_alnum (rs : list Z) : Forall (λ c, is_alnum c = true) (omap Auth.pick rs).
Proof.
  induction rs as [|r rs IH]; [constructor|]. cbn [omap list_omap].
  destruct (pick_alnum r) as (c & -> & Hc). by constructor.
Qed.

Lemma omap_pick_lookup (rs : list Z) (i : nat) r :
  rs !! i = Some r → omap Auth.pick rs !! i = Auth.pick r.
Proof.
  revert i. induction rs as [|r' rs IH]; intros i Hi; [done|].
  cbn [omap list_omap].
  destruct (pick_Some r') as [c Hc]. rewrite Hc.
  destruct i as [|i]; cbn [lookup list_lookup] in *;
    [by injection Hi as <- | by apply IH].
Qed.

Section Tokens.
Context {G : Type} `{RandGen G}.

Lemma draws_S n (g : G) :
  draws (S n) g
  = ((rand g).1 :: (draws n (rand g).2).1, (draws n (rand g).2).2).
Proof.
  cbn [draws]. destruct (rand g) as [r g1]. cbn [fst snd].
  by destruct (draws n g1).
Qed.

Lemma draws_length n : ∀ g : G, length (draws n g).1 = n.
Proof.
  induction n as [|n IH]; intros g; [done|].
  rewrite draws_S. cbn [fst length]. by rewrite IH.
Qed.

Lemma draws_add n m : ∀ g : G,
  (draws (n + m) g).2 = (draws m (draws n g).2).2.
Proof.
  induction n as [|n IH]; intros g; [done|].
  cbn [Nat.add]. rewrite !draws_S. cbn [snd]. apply IH.
Qed.

Lemma token_loop_done fuel token len (g : G) :
  Auth.token_loop fuel token len (len - 1) g = Some (token, g).
Proof. destruct fuel; simpl; by rewrite bool_decide_eq_false_2 by lia. Qed.

Lemma token_loop_draws len fuel : ∀ token i (g : G),
  0 ≤ i ≤ len - 1 → len - 1 ≤ Z.of_nat (length token) →
  (Z.to_nat (len - 1 - i) ≤ fuel)%nat →
  Auth.token_loop fuel token len i g
  = Some (take (Z.to_nat i) token
            ++ omap Auth.pick (draws (Z.to_nat (len - 1 - i)) g).1
            ++ drop (Z.to_nat (len - 1)) token,
          (draws (Z.to_nat (len - 1 - i)) g).2).
Proof.
  induction fuel as [|fuel IH]; intros token i g Hi Hlen Hfuel.
  - assert (i = len - 1) as -> by lia. rewrite token_loop_done.
    replace (len - 1 - (len - 1)) with 0 by lia.
    by rewrite app_nil_l, take_drop.
  - destruct (decide (i = len - 1)) as [-> | Hne].
    { rewrite token_loop_done. replace (len - 1 - (len - 1)) with 0 by lia.
      by rewrite app_nil_l, take_drop. }
    replace (Z.to_nat (len - 1 - i)) with (S (Z.to_nat (len - 1 - (i + 1))))
      by lia.
    rewrite draws_S. cbn [Auth.token_loop fst snd omap list_omap].
    rewrite bool_decide_eq_true_2 by lia.
    destruct (rand g) as [r g1]. cbn [fst snd].
    destruct (pick_Some r) as [c ->]. rewrite bind_Some.
    rewrite store_Some, bind_Some by lia.
    rewrite IH by (rewrite ?length_insert; lia).
    f_equal. f_equal.
    replace (Z.to_nat (i + 1)) with (S (Z.to_nat i)) by lia.
    erewrite take_S_r; [|apply list_lookup_insert_eq; lia].
    rewrite take_insert_ge, drop_insert_lt by lia.
    by rewrite <- app_assoc.
Qed.

Lemma token_loop_overflow len fuel : ∀ token i (g : G),
  0 ≤ i ≤ Z.of_nat (length token) → Z.of_nat (length token) < len - 1 →
  Auth.token_loop fuel token len i g = None.
Proof.
  induction fuel as [|fuel IH]; intros token i g Hi Hlen; cbn [Auth.token_loop];
    rewrite bool_decide_eq_true_2 by lia; [done|].
  destruct (rand g) as [r g1]. destruct (pick_Some r) as [c ->].
  rewrite bind_Some.
  destruct (decide (i = Z.of_nat (length token))) as [-> | Hne].
  - unfold store. by rewrite bool_decide_eq_false_2 by lia.
  - rewrite store_Some, bind_Some by lia.
    apply IH; rewrite length_insert; lia.
Qed.

Lemma generate_token_draws token len (g : G) :
  1 ≤ len ≤ Z.of_nat (length token) →
  Auth.generate_token token len g
  = Some (omap Auth.pick (draws (Z.to_nat (len - 1)) g).1
            ++ NUL :: drop (Z.to_nat len) token,
          (draws (Z.to_nat (len - 1)) g).2).
Proof.
  intros Hlen. unfold Auth.generate_token.
  rewrite token_loop_draws by lia. rewrite bind_Some.
  replace (len - 1 - 0) with (len - 1) by lia.
  change (Z.to_nat 0) with 0%nat. rewrite take_0, app_nil_l.
  set (cs := omap Auth.pick _).
  assert (Hcs : length cs = Z.to_nat (len - 1))
    by (unfold cs; by rewrite omap_pick_length, draws_length).
  destruct (drop (Z.to_nat (len - 1)) token) as [|x rest] eqn:Hd.
  { apply (f_equal length) in Hd. rewrite length_drop in Hd. simpl in Hd. lia. }
  assert (Hrest : rest = drop (Z.to_nat len) token).
  { replace (Z.to_nat len) with (Z.to_nat (len - 1) + 1)%nat by lia.
    by rewrite <- drop_drop, Hd. }
  rewrite store_Some by (rewrite length_app; simpl; lia).
  rewrite bind_Some. f_equal. f_equal.
  replace (Z.to_nat (len - 1)) with (length cs + 0)%nat by lia.
  by rewrite insert_app_r, Hrest.
Qed.

Lemma generate_token_faults token len (g : G) :
  ¬ 1 ≤ len ≤ Z.of_nat (length token) →
  Auth.generate_token token len g = None.
Proof.
  intros Hlen. unfold Auth.generate_token.
  destruct (decide (len ≤ 0)) as [Hneg | Hpos].
  - assert (Hloop : Auth.token_loop (Z.to_nat len) token len 0 g
                    = Some (token, g)).
    { destruct (Z.to_nat len); simpl; by rewrite bool_decide_eq_false_2 by lia. }
    rewrite Hloop, bind_Some. unfold store.
    by rewrite bool_decide_eq_false_2 by lia.
  - destruct (decide (len - 1 = Z.of_nat (length token))) as [Heq | Hne].
    + rewrite token_loop_draws by lia. rewrite bind_Some.
      unfold store. rewrite bool_decide_eq_false_2; [done|].
      rewrite !length_app, length_take, length_drop, omap_pick_length,
        draws_length. lia.
    + by rewrite token_loop_overflow by lia.
Qed.
End Tokens.

(** [generate_token(token, len)] stays inside the array exactly when
    1 <= len <= its size: with [len] zero or negative it writes
    [token[len - 1]] before the array, with [len] beyond the size it
    writes past its end. *)
Theorem generate_token_safe_iff (G : Type) (R : RandGen G) token len (g : G) :
  is_Some (Auth.generate_token token len g)
  ↔ 1 ≤ len ≤ Z.of_nat (length token).
Proof.
  split.
  - intros Hsome.
    destruct (decide (1 ≤ len ≤ Z.of_nat (length token))) as [|Hbad]; [done|].
    rewrite generate_token_faults in Hsome by done. by destruct Hsome.
  - intros Hlen. by rewrite generate_token_draws.
Qed.

(** With 1 <= len <= size, [generate_token] calls [rand] exactly
    [len - 1] times; it leaves in the array the characters
    [charset[r % 62]] of the raw results [r], in their order, all
    alphanumeric, then a zero byte, and does not touch the bytes from
    index [len] on. *)
Theorem generate_token_contract (G : Type) (R : RandGen G) token len (g : G) :
  1 ≤ len ≤ Z.of_nat (length token) →
  ∃ cs,
    Auth.generate_token token len g
    = Some (cs ++ NUL :: drop (Z.to_nat len) token,
            (draws (Z.to_nat (len - 1)) g).2) ∧
    length cs = Z.to_nat (len - 1) ∧
    (∀ (i : nat) r, (draws (Z.to_nat (len - 1)) g).1 !! i = Some r →
                    cs !! i = Auth.pick r) ∧
    Forall (λ c, is_alnum c = true) cs ∧
    c_str (cs ++ NUL :: drop (Z.to_nat len) token) 0 = cs.
Proof.
  intros Hlen. eexists. split; [by apply generate_token_draws|].
  split; [by rewrite omap_pick_length, draws_length|].
  split; [intros i r; apply omap_pick_lookup|].
  split; [apply omap_pick_alnum|].
  unfold c_str. rewrite drop_0.
  apply until_nul_app, is_alnum_no_nul, omap_pick_alnum.
Qed.

Lemma generate_token_contract_witness :
  ∃ cs,
    Auth.generate_token (c_lit "0123456789") 5 (srand (G := Z) 42)
    = Some (cs ++ NUL :: drop (Z.to_nat 5) (c_lit "0123456789"),
            (draws (Z.to_nat (5 - 1)) (srand (G := Z) 42)).2) ∧
    length cs = Z.to_nat (5 - 1) ∧
    (∀ (i : nat) r,
       (draws (Z.to_nat (5 - 1)) (srand (G := Z) 42)).1 !! i = Some r →
       cs !! i = Auth.pick r) ∧
    Forall (λ c, is_alnum c = true) cs ∧
    c_str (cs ++ NUL :: drop (Z.to_nat 5) (c_lit "0123456789")) 0 = cs.
Proof.
  apply (generate_token_contract Z lcg (c_lit "0123456789") 5 (srand 42)).
  simpl. lia.
Defined.

(** ** The token stream of the Token Issuer *)

Section TokenStream.
Context {G : Type} `{RandGen G}.

Lemma auth_send_response_draws t pid fd user (g : G) :
  (length (c_str user 0) ≤ 255)%nat →
  Auth.send_response t pid fd user g
  = Some
      (Send fd
         (http_response
            (print_dec (Z.of_nat (length
               (token_json (c_str user 0) (omap Auth.pick (draws 32 g).1)
                  (sint 32 pid) (sint 64 (now t + 3600))))))
            (token_json (c_str user 0) (omap Auth.pick (draws 32 g).1)
               (sint 32 pid) (sint 64 (now t + 3600)))),
       (draws 32 g).2).
Proof.
  intros Hu. unfold Auth.send_response.
  rewrite generate_token_draws by (rewrite array_uninit_length; lia).
  rewrite bind_Some.
  change (Z.to_nat (33 - 1)) with 32%nat. change (Z.to_nat 33) with 33%nat.
  set (token := omap Auth.pick (draws 32 g).1).
  assert (Htok : c_str (token ++ NUL :: drop 33 (array_uninit 33 (junk_token t))) 0
                 = token).
  { unfold c_str. rewrite drop_0.
    apply until_nul_app, is_alnum_no_nul, omap_pick_alnum. }
  rewrite Htok.
  destruct (send_fits t fd _ _ _
              (format_token_json (c_str user 0) token pid
                 (sint 64 (now t + 3600))))
    as (b & Hb & Hstr & Hsend).
  { apply token_json_no_nul; [apply c_str_no_nul|].
    apply is_alnum_no_nul, omap_pick_alnum. }
  { rewrite token_json_length. unfold token.
    rewrite omap_pick_length, draws_length.
    pose proof (print_int_length pid).
    pose proof (print_long_length (sint 64 (now t + 3600))). lia. }
  rewrite Hb, bind_Some.
  rewrite sint_idem in Hsend by lia.
  destruct (snprintf _ 1024 _ _) as [response|]; [|done].
  rewrite bind_Some in *. by injection Hsend as ->.
Qed.

Lemma auth_serve_draws server_socket pid t (g : G) :
  Auth.serve server_socket pid t g
  = Some
      (if bool_decide (r_accept t < 0)
       then ([Accept server_socket (r_accept t)], g)
       else
         let user := param_of (c_lit "user=") (c_lit "anonymous")
                       (request_text (r_recv t)) in
         let body := token_json user (omap Auth.pick (draws 32 g).1)
                       (sint 32 pid) (sint 64 (now t + 3600)) in
         ([Accept server_socket (r_accept t);
           Recv (r_accept t) (recv_count (r_recv t));
           Send (r_accept t)
             (http_response (print_dec (Z.of_nat (length body))) body);
           Close (r_accept t)],
          (draws 32 g).2)).
Proof.
  unfold Auth.serve. case_bool_decide; [done|].
  destruct (extract_user (r_recv t)) as (user & Hu & _ & Hstr & Hlen).
  rewrite recv_pair, Hu, bind_Some.
  rewrite auth_send_response_draws, bind_Some by done. by rewrite Hstr.
Qed.

Lemma auth_loop_state server_socket pid turns : ∀ g : G,
  ∃ ev,
    accept_loop (Auth.serve server_socket pid) turns g
    = Some (ev,
            (draws (32 * length (filter (λ t, 0 ≤ r_accept t) turns)) g).2).
Proof.
  induction turns as [|t turns IH]; intros g; [by exists []|].
  cbn [accept_loop]. rewrite auth_serve_draws, filter_cons.
  case_bool_decide; case_decide; try lia; rewrite bind_Some;
    cbv beta iota zeta.
  - destruct (IH g) as [ev ->]. rewrite bind_Some. by eexists.
  - destruct (IH (draws 32 g).2) as [ev ->]. rewrite bind_Some.
    eexists. f_equal. f_equal. cbn [length].
    set (n := length (filter _ turns)).
    replace (32 * S n)%nat with (32 + 32 * n)%nat by lia.
    by rewrite draws_add.
Qed.
End TokenStream.

(** The token a served request gets is [charset[r % 62]] for the next 32
    raw results of the generator, whatever the request says, and serving
    it advances the generator by exactly these 32 results. *)
Theorem token_from_next_32_draws (G : Type) (R : RandGen G)
    server_socket pid t (g : G) :
  0 ≤ r_accept t →
  ∃ user body,
    Auth.user_of (r_recv t) = Some user ∧
    body = token_json user (omap Auth.pick (draws 32 g).1)
             (sint 32 pid) (sint 64 (now t + 3600)) ∧
    length (omap Auth.pick (draws 32 g).1) = 32%nat ∧
    Auth.serve server_socket pid t g
    = Some ([Accept server_socket (r_accept t);
             Recv (r_accept t) (recv_count (r_recv t));
             Send (r_accept t)
               (http_response (print_dec (Z.of_nat (length body))) body);
             Close (r_accept t)],
            (draws 32 g).2).
Proof.
  intros Hfd. eexists _, _. split; [apply user_of_spec|]. split; [done|].
  split; [by rewrite omap_pick_length, draws_length|].
  by rewrite auth_serve_draws, bool_decide_eq_false_2 by lia.
Qed.

Lemma token_from_next_32_draws_witness :
  ∃ user body,
    Auth.user_of (req "GET /login?user=bob HTTP/1.1\r\n\r\n") = Some user ∧
    body = token_json user (omap Auth.pick (draws 32 (srand (G := Z) 42)).1)
             (sint 32 4242) (sint 64 (1700000000 + 3600)) ∧
    length (omap Auth.pick (draws 32 (srand (G := Z) 42)).1) = 32%nat ∧
    Auth.serve 3 4242
      (quiet_turn 4 (req "GET /login?user=bob HTTP/1.1\r\n\r\n"))
      (srand (G := Z) 42)
    = Some ([Accept 3 4; Recv 4 32;
             Send 4 (http_response (print_dec (Z.of_nat (length body))) body);
             Close 4],
            (draws 32 (srand (G := Z) 42)).2).
Proof.
  apply (token_from_next_32_draws Z lcg 3 4242
           (quiet_turn 4 (req "GET /login?user=bob HTTP/1.1\r\n\r\n"))
           (srand 42)).
  simpl. lia.
Defined.

(** After any run of the Token Issuer's loop the generator has advanced
    by 32 raw results for each connection served and by none for a failed
    [accept]. *)
Theorem generator_advances_32_per_request (G : Type) (R : RandGen G)
    server_socket pid turns (g : G) :
  ∃ ev,
    accept_loop (Auth.serve server_socket pid) turns g
    = Some (ev,
            (draws (32 * length (filter (λ t, 0 ≤ r_accept t) turns)) g).2).
Proof. apply auth_loop_state. Qed.

(** What either server sends does not depend on what the arrays [token],
    [body] and [response] held before: no byte of uninitialised memory
    reaches the client or the generator. *)
Theorem no_stale_memory_sent server_socket pid t t' :
  r_accept t = r_accept t' → r_recv t = r_recv t' → now t = now t' →
  (∀ s, Search.serve server_socket pid t s = Search.serve server_socket pid t' s)
  ∧ (∀ (G : Type) (R : RandGen G) (g : G),
       Auth.serve server_socket pid t g = Auth.serve server_socket pid t' g).
Proof.
  intros Ha Hr Hn. split.
  - intros s. by rewrite !search_serve, Ha, Hr, Hn.
  - intros G R g. by rewrite !auth_serve_draws, Ha, Hr, Hn.
Qed.

Lemma no_stale_memory_sent_witness :
  Search.serve 3 4242 (quiet_turn 4 (req "GET /?q=a")) ()
  = Search.serve 3 4242
      {| r_accept := 4; r_recv := req "GET /?q=a"; now := 1700000000;
         junk_token := c_lit "secret"; junk_body := c_lit "password";
         junk_response := replicate 2000 "x"%char |} ().
Proof.
  apply (proj1 (no_stale_memory_sent 3 4242 (quiet_turn 4 (req "GET /?q=a"))
    {| r_accept := 4; r_recv := req "GET /?q=a"; now := 1700000000;
       junk_token := c_lit "secret"; junk_body := c_lit "password";
       junk_response := replicate 2000 "x"%char |}
    eq_refl eq_refl eq_refl)).
Defined.

(** ** A client that sends nothing *)

(** [recv] failing or returning no byte is not detected: the connection
    is answered like a request without parameter, with the default. *)
Theorem silent_client_gets_default server_socket pid t :
  0 ≤ r_accept t → r_recv t = RecvFailed ∨ r_recv t = Received [] →
  recv_count (r_recv t) ≤ 0
  ∧ (∀ s,
       Search.serve server_socket pid t s
       = Some ([Accept server_socket (r_accept t);
                Recv (r_accept t) (recv_count (r_recv t));
                Send (r_accept t)
                  (http_response
                     (print_dec (Z.of_nat (length
                        (query_json (c_lit "default") (sint 32 pid)
                           (sint 64 (now t))))))
                     (query_json (c_lit "default") (sint 32 pid)
                        (sint 64 (now t))));
                Close (r_accept t)], s))
  ∧ (∀ (G : Type) (R : RandGen G) (g : G),
       Auth.serve server_socket pid t g
       = Some ([Accept server_socket (r_accept t);
                Recv (r_accept t) (recv_count (r_recv t));
                Send (r_accept t)
                  (http_response
                     (print_dec (Z.of_nat (length
                        (token_json (c_lit "anonymous")
                           (omap Auth.pick (draws 32 g).1) (sint 32 pid)
                           (sint 64 (now t + 3600))))))
                     (token_json (c_lit "anonymous")
                        (omap Auth.pick (draws 32 g).1) (sint 32 pid)
                        (sint 64 (now t + 3600))));
                Close (r_accept t)], (draws 32 g).2)).
Proof.
  intros Hfd Hrecv.
  assert (Htext : request_text (r_recv t) = [] ∧ recv_count (r_recv t) ≤ 0).
  { by destruct Hrecv as [-> | ->]. }
  destruct Htext as [Htext Hcount]. split; [done|]. split.
  - intros s. rewrite search_serve, bool_decide_eq_false_2 by lia.
    by rewrite Htext.
  - intros G R g. rewrite auth_serve_draws, bool_decide_eq_false_2 by lia.
    by rewrite Htext.
Qed.

Lemma silent_client_gets_default_witness :
  Search.serve 3 4242 (quiet_turn 4 RecvFailed) ()
  = Some ([Accept 3 4; Recv 4 (-1);
           Send 4
             (http_response
                (print_dec (Z.of_nat (length
                   (query_json (c_lit "default") 4242 1700000000))))
                (query_json (c_lit "default") 4242 1700000000));
           Close 4], ()).
Proof.
  apply (proj1 (proj2 (silent_client_gets_default 3 4242
                         (quiet_turn 4 RecvFailed) ltac:(done)
                         (or_introl eq_refl)))).
Defined.

(** ** Every response is whole *)

Lemma print_dec_length_nonneg n (k : nat) :
  (1 ≤ k)%nat → 0 ≤ n < 10 ^ Z.of_nat k → (length (print_dec n) ≤ k)%nat.
Proof.
  intros Hk Hn. unfold print_dec. rewrite bool_decide_eq_false_2 by lia.
  pose proof (digits_length (Z.to_nat (Z.log2 n)) n [] k Hk Hn) as Hd.
  simpl in Hd. lia.
Qed.

Lemma whole_response body :
  last body = Some "}"%char → (length body ≤ 369)%nat →
  c_lit "HTTP/1.1 200 OK\r\n"
    `prefix_of` http_response (print_dec (Z.of_nat (length body))) body
  ∧ last (http_response (print_dec (Z.of_nat (length body))) body)
    = Some "}"%char
  ∧ (length (http_response (print_dec (Z.of_nat (length body))) body)
     ≤ 460)%nat.
Proof.
  intros Hlast Hlen. split; [|split].
  - by eexists (c_lit "Content-Type: application/json\r\nContent-Length: "
                ++ _ ++ _ ++ body).
  - apply last_Some in Hlast as [body' ->].
    unfold http_response. rewrite !app_assoc. apply last_snoc.
  - rewrite http_response_length.
    pose proof (print_dec_length_nonneg (Z.of_nat (length body)) 3) as Hd.
    change (10 ^ Z.of_nat 3) with 1000 in Hd. lia.
Qed.

(** Every accepted connection gets one response that starts with the
    status line "HTTP/1.1 200 OK", ends with the closing brace of the
    JSON body and is at most 460 bytes long: neither [snprintf] ever cuts
    the text, and no other status is ever sent. *)
Theorem every_response_whole server_socket pid t :
  0 ≤ r_accept t →
  (∀ s, ∃ bytes,
     Search.serve server_socket pid t s
     = Some ([Accept server_socket (r_accept t);
              Recv (r_accept t) (recv_count (r_recv t));
              Send (r_accept t) bytes; Close (r_accept t)], s) ∧
     c_lit "HTTP/1.1 200 OK\r\n" `prefix_of` bytes ∧
     last bytes = Some "}"%char ∧ (length bytes ≤ 460)%nat)
  ∧ (∀ (G : Type) (R : RandGen G) (g : G), ∃ bytes,
     Auth.serve server_socket pid t g
     = Some ([Accept server_socket (r_accept t);
              Recv (r_accept t) (recv_count (r_recv t));
              Send (r_accept t) bytes; Close (r_accept t)],
             (draws 32 g).2) ∧
     c_lit "HTTP/1.1 200 OK\r\n" `prefix_of` bytes ∧
     last bytes = Some "}"%char ∧ (length bytes ≤ 460)%nat).
Proof.
  intros Hfd. split.
  - intros s. rewrite search_serve, bool_decide_eq_false_2 by lia.
    eexists. split; [done|]. apply whole_response.
    + unfold query_json. rewrite !app_assoc. apply last_snoc.
    + rewrite query_json_length.
      pose proof (param_of_length (c_lit "q=") (c_lit "default")
                    (request_text (r_recv t)) ltac:(vm_compute; lia)).
      pose proof (print_int_length pid). pose proof (print_long_length (now t)).
      lia.
  - intros G R g. rewrite auth_serve_draws, bool_decide_eq_false_2 by lia.
    eexists. split; [done|]. apply whole_response.
    + unfold token_json. rewrite !app_assoc. apply last_snoc.
    + rewrite token_json_length, omap_pick_length, draws_length.
      pose proof (param_of_length (c_lit "user=") (c_lit "anonymous")
                    (request_text (r_recv t)) ltac:(vm_compute; lia)).
      pose proof (print_int_length pid).
      pose proof (print_long_length (now t + 3600)). lia.
Qed.

Lemma every_response_whole_witness :
  ∃ bytes,
    Search.serve 3 4242 (quiet_turn 4 long_request) ()
    = Some ([Accept 3 4; Recv 4 (recv_count long_request);
             Send 4 bytes; Close 4], ()) ∧
    c_lit "HTTP/1.1 200 OK\r\n" `prefix_of` bytes ∧
    last bytes = Some "}"%char ∧ (length bytes ≤ 460)%nat.
Proof.
  apply (proj1 (every_response_whole 3 4242 (quiet_turn 4 long_request)
                  ltac:(done)) ()).
Defined.

(** ** [send_response] on any string *)

(** [snprintf] into an array at least as large as the size it is given:
    the text is cut to [size - 1] characters. *)
Lemma snprintf_cut buf size fmt args :
  0 < size ≤ Z.of_nat (length buf) → NUL ∉ format fmt args →
  ∃ b, snprintf buf size fmt args = Some b ∧
       c_str b 0 = take (Z.to_nat (size - 1)) (format fmt args).
Proof.
  intros Hsize Hn. unfold snprintf.
  rewrite bool_decide_eq_true_2 by lia.
  set (w := take (Z.to_nat (size - 1)) (format fmt args)).
  assert (Hw : (length w ≤ Z.to_nat (size - 1))%nat)
    by (unfold w; rewrite length_take; lia).
  rewrite store_all_spec; [|lia|rewrite length_app; simpl; lia].
  rewrite take_0, app_nil_l, <- app_assoc. cbn [app].
  eexists. split; [done|].
  unfold c_str. rewrite drop_0. apply until_nul_app.
  intros Hin. apply Hn. by eapply subseteq_take.
Qed.

Lemma send_cut t fd fmt args full :
  format fmt args = full → NUL ∉ full →
  ∃ b,
    snprintf (array_uninit 512 (junk_body t)) 512 fmt args = Some b ∧
    (response ← snprintf (array_uninit 1024 (junk_response t)) 1024
       (c_lit "HTTP/1.1 200 OK\r\nContent-Type: application/json\r\nContent-Length: %ld\r\nConnection: close\r\n\r\n%s")
       [ArgLong (strlen b 0); ArgStr (c_str b 0)];
     Some (Send fd (take (Z.to_nat (strlen response 0)) response)))
    = Some (Send fd
        (http_response (print_dec (Z.of_nat (length (take 511 full))))
           (take 511 full))).
Proof.
  intros Hfmt Hn.
  destruct (snprintf_cut (array_uninit 512 (junk_body t)) 512 fmt args)
    as (b & Hb & Hstr).
  { rewrite array_uninit_length. lia. }
  { by rewrite Hfmt. }
  rewrite Hfmt in Hstr. change (Z.to_nat (512 - 1)) with 511%nat in Hstr.
  exists b. split; [done|].
  set (body := take 511 full) in *.
  assert (Hbody : (length body ≤ 511)%nat)
    by (unfold body; rewrite length_take; lia).
  assert (Hnb : NUL ∉ body).
  { intros Hin. apply Hn. by eapply subseteq_take. }
  assert (Hlenb : strlen b 0 = Z.of_nat (length body))
    by (unfold strlen; by rewrite Hstr).
  rewrite Hlenb, Hstr.
  assert (Hdigits : sint 64 (Z.of_nat (length body)) = Z.of_nat (length body)).
  { apply sint_id; [lia|]. change (2 ^ (64 - 1)) with 9223372036854775808. lia. }
  pose proof (print_dec_length_nonneg (Z.of_nat (length body)) 3) as Hdl.
  change (10 ^ Z.of_nat 3) with 1000 in Hdl.
  destruct (snprintf_fits (array_uninit 1024 (junk_response t)) 1024
              (c_lit "HTTP/1.1 200 OK\r\nContent-Type: application/json\r\nContent-Length: %ld\r\nConnection: close\r\n\r\n%s")
              [ArgLong (Z.of_nat (length body)); ArgStr body])
    as (resp & Hresp & _ & _ & Hsent).
  { by rewrite array_uninit_length. }
  { rewrite array_uninit_length, format_http_response, Hdigits,
      http_response_length. lia. }
  { rewrite format_http_response. apply http_response_no_nul; [|done].
    apply print_dec_no_nul. }
  by rewrite Hresp, bind_Some, Hsent, format_http_response, Hdigits.
Qed.

Lemma print_dec_nonempty n : (1 ≤ length (print_dec n))%nat.
Proof.
  assert (Hd : ∀ fuel m acc, (1 ≤ length (digits fuel m acc))%nat).
  { induction fuel as [|fuel IH]; intros m acc; cbn [digits]; [simpl; lia|].
    case_bool_decide; [simpl; lia | apply IH]. }
  unfold print_dec. case_bool_decide; [simpl; lia | apply Hd].
Qed.

(** [send_response] is safe for every string it may be given, not only
    for the at most 255 characters [main] passes: a longer string has the
    body cut to the 511 characters its array holds, the Content-Length
    still being the number of body bytes sent, and the response array
    never overflows.  The JSON is whole for up to 397 characters and
    always cut beyond 426. *)
Theorem send_response_any_string t pid fd param :
  Search.send_response t pid fd param
  = Some (Send fd
      (http_response
         (print_dec (Z.of_nat (length (take 511
            (query_json (c_str param 0) (sint 32 pid) (sint 64 (now t)))))))
         (take 511
            (query_json (c_str param 0) (sint 32 pid) (sint 64 (now t))))))
  ∧ ((length (c_str param 0) ≤ 397)%nat →
     take 511 (query_json (c_str param 0) (sint 32 pid) (sint 64 (now t)))
     = query_json (c_str param 0) (sint 32 pid) (sint 64 (now t)))
  ∧ ((426 < length (c_str param 0))%nat →
     (length (take 511
        (query_json (c_str param 0) (sint 32 pid) (sint 64 (now t))))
      < length (query_json (c_str param 0) (sint 32 pid) (sint 64 (now t))))%nat)
  ∧ (∀ (G : Type) (R : RandGen G) (g : G),
       Auth.send_response t pid fd param g
       = Some (Send fd
           (http_response
              (print_dec (Z.of_nat (length (take 511
                 (token_json (c_str param 0) (omap Auth.pick (draws 32 g).1)
                    (sint 32 pid) (sint 64 (now t + 3600)))))))
              (take 511
                 (token_json (c_str param 0) (omap Auth.pick (draws 32 g).1)
                    (sint 32 pid) (sint 64 (now t + 3600))))),
               (draws 32 g).2)).
Proof.
  pose proof (print_int_length pid) as Hp.
  pose proof (print_long_length (now t)) as Ht.
  pose proof (print_dec_nonempty (sint 32 pid)) as Hp1.
  pose proof (print_dec_nonempty (sint 64 (now t))) as Ht1.
  split; [|split; [|split]].
  - unfold Search.send_response.
    destruct (send_cut t fd _ _ _
                (format_query_json (c_str param 0) pid (now t)))
      as (b & Hb & Hsend).
    { apply query_json_no_nul, c_str_no_nul. }
    rewrite Hb, bind_Some. exact Hsend.
  - intros Hlen. apply take_ge. rewrite query_json_length. lia.
  - intros Hlen. rewrite length_take, query_json_length. lia.
  - intros G R g. unfold Auth.send_response.
    rewrite generate_token_draws by (rewrite array_uninit_length; lia).
    rewrite bind_Some.
    change (Z.to_nat (33 - 1)) with 32%nat. change (Z.to_nat 33) with 33%nat.
    set (token := omap Auth.pick (draws 32 g).1).
    assert (Htok : c_str (token ++ NUL :: drop 33 (array_uninit 33 (junk_token t))) 0
                   = token).
    { unfold c_str. rewrite drop_0.
      apply until_nul_app, is_alnum_no_nul, omap_pick_alnum. }
    rewrite Htok.
    destruct (send_cut t fd _ _ _
                (format_token_json (c_str param 0) token pid
                   (sint 64 (now t + 3600))))
      as (b & Hb & Hsend).
    { apply token_json_no_nul; [apply c_str_no_nul|].
      apply is_alnum_no_nul, omap_pick_alnum. }
    rewrite Hb, bind_Some.
    rewrite sint_idem in Hsend by lia.
    destruct (snprintf _ 1024 _ _) as [response|]; [|done].
    rewrite bind_Some in *. by injection Hsend as ->.
Qed.

Lemma send_response_any_string_witness :
  (length (take 511
     (query_json (c_str (replicate 500 "a"%char ++ [NUL]) 0) (sint 32 7)
        (sint 64 (now (quiet_turn 4 RecvFailed)))))
   < length
       (query_json (c_str (replicate 500 "a"%char ++ [NUL]) 0) (sint 32 7)
          (sint 64 (now (quiet_turn 4 RecvFailed)))))%nat.
Proof.
  destruct (send_response_any_string (quiet_turn 4 RecvFailed) 7 4
              (replicate 500 "a"%char ++ [NUL])) as (_ & _ & Hcut & _).
  apply Hcut. vm_compute. lia.
Defined.

(** ** The port argument *)

Lemma digit_not_space c :
  is_digit c = true →
  isspace c = false ∧ c ≠ "-"%char ∧ c ≠ "+"%char.
Proof.
  intros Hc. apply bool_decide_eq_true in Hc.
  split; [apply bool_decide_eq_false_2; lia|].
  split; intros ->; vm_compute in Hc; lia.
Qed.

Lemma atoi_digits_app d : ∀ rest v,
  Forall (λ c, is_digit c = true) d →
  (∀ c, head rest = Some c → is_digit c = false) →
  atoi_digits (d ++ rest) v
  = fold_left (λ v c, 10 * v + (Z.of_nat (nat_of_ascii c) - 48)) d v.
Proof.
  induction d as [|c d IH]; intros rest v Hd Hrest.
  - destruct rest as [|c rest]; [done|].
    cbn [app atoi_digits fold_left]. by rewrite (Hrest c).
  - apply Forall_cons in Hd as [Hc Hd].
    cbn [app atoi_digits fold_left]. rewrite Hc. by apply IH.
Qed.

Lemma atoi_digits_digits n rest :
  0 ≤ n → (∀ c, head rest = Some c → is_digit c = false) →
  ∃ c d, digits (Z.to_nat (Z.log2 n)) n [] = c :: d ∧
         is_digit c = true ∧
         atoi_digits ((c :: d) ++ rest) 0 = n.
Proof.
  intros Hn Hrest.
  destruct (digits_spec _ n [] (conj Hn (log2_fuel n Hn))) as (d & Hd & Hv).
  rewrite app_nil_r in Hd.
  pose proof (digits_are_digits (Z.to_nat (Z.log2 n)) n [] ltac:(constructor))
    as Hall.
  rewrite Hd in Hall.
  destruct d as [|c d].
  { pose proof (print_dec_nonempty n) as Hne. unfold print_dec in Hne.
    rewrite bool_decide_eq_false_2, Hd in Hne by lia. simpl in Hne. lia. }
  exists c, d. split; [done|].
  split; [by apply Forall_cons in Hall as [? _]|].
  by rewrite atoi_digits_app.
Qed.

(** [strtol] reads back what [%d] and [%ld] print, after any white space
    and whatever follows the number, as long as no further digit does. *)
Lemma strtol_decimal ws p rest :
  Forall (λ c, isspace c = true) ws →
  (∀ c, head rest = Some c → is_digit c = false) →
  strtol (ws ++ print_dec p ++ rest) = saturate p.
Proof.
  intros Hws Hrest. induction Hws as [|c ws Hc _ IH].
  - cbn [app]. unfold print_dec. case_bool_decide as Hneg.
    + destruct (atoi_digits_digits (- p) rest ltac:(lia) Hrest)
        as (c & d & Hd & _ & Hv).
      rewrite Hd. change (("-"%char :: c :: d) ++ rest)
        with ("-"%char :: ((c :: d) ++ rest)).
      cbn [strtol].
      replace (isspace "-") with false by (by vm_compute).
      rewrite bool_decide_eq_true_2 by done. rewrite Hv. f_equal. lia.
    + destruct (atoi_digits_digits p rest ltac:(lia) Hrest)
        as (c & d & Hd & Hc & Hv).
      rewrite Hd. destruct (digit_not_space c Hc) as (Hs & Hm & Hp).
      change ((c :: d) ++ rest) with (c :: (d ++ rest)) in *.
      cbn [strtol]. rewrite Hs, !bool_decide_eq_false_2 by done.
      by rewrite Hv.
  - cbn [app strtol]. by rewrite Hc.
Qed.

Lemma atoi_decimal ws p rest :
  Forall (λ c, isspace c = true) ws →
  (∀ c, head rest = Some c → is_digit c = false) →
  - 2 ^ 63 ≤ p < 2 ^ 63 →
  atoi (ws ++ print_dec p ++ rest) = sint 32 p.
Proof.
  intros Hws Hrest Hp. unfold atoi. rewrite strtol_decimal by done.
  unfold saturate. f_equal. lia.
Qed.

Lemma format_hello (name : list ascii) pid port :
  "%"%char ∉ name →
  format (name ++ c_lit " CGI process %d listening on port %d\n")
    [ArgInt pid; ArgInt port]
  = name ++ c_lit " CGI process " ++ print_dec (sint 32 pid)
    ++ c_lit " listening on port " ++ print_dec (sint 32 port) ++ c_lit "\n".
Proof.
  induction name as [|c name IH]; intros Hname.
  - done.
  - apply not_elem_of_cons in Hname as [Hc Hname].
    cbn [app]. rewrite <- IH by done.
    destruct c as [[] [] [] [] [] [] [] []]; try done.
Qed.

(** The trace of a successful start-up: the port bound is the low 16
    bits of the number [atoi] returns ([htons] takes a 16-bit value), the
    port announced is that number. *)
Lemma startup_trace argv0 argv1 b turns :
  ¬ setup_fails b →
  (∃ served,
     Search.main argv0 [argv1] b turns
     = Some ([Signal SIGTERM; Signal SIGINT;
              Socket (ret (r_socket b));
              Setsockopt (ret (r_socket b)) (ret (r_setsockopt b));
              Bind (ret (r_socket b)) (atoi argv1 `mod` 65536) (ret (r_bind b));
              Listen (ret (r_socket b)) 10 (ret (r_listen b));
              Stdout (c_lit "Search CGI process "
                        ++ print_dec (sint 32 (boot_pid b))
                        ++ c_lit " listening on port "
                        ++ print_dec (atoi argv1) ++ c_lit "\n")]
             ++ served, Accepting))
  ∧ (∀ (G : Type) (R : RandGen G), ∃ served,
       Auth.main (G := G) argv0 [argv1] b turns
       = Some ([Signal SIGTERM; Signal SIGINT;
                Srand (Z.lxor (boot_time b) (boot_pid b) `mod` 2 ^ 32);
                Socket (ret (r_socket b));
                Setsockopt (ret (r_socket b)) (ret (r_setsockopt b));
                Bind (ret (r_socket b)) (atoi argv1 `mod` 65536) (ret (r_bind b));
                Listen (ret (r_socket b)) 10 (ret (r_listen b));
                Stdout (c_lit "Auth CGI process "
                          ++ print_dec (sint 32 (boot_pid b))
                          ++ c_lit " listening on port "
                          ++ print_dec (atoi argv1) ++ c_lit "\n")]
               ++ served, Accepting)).
Proof.
  intros Hok.
  assert (Hlisten : listen_on b argv1
    = ([Socket (ret (r_socket b));
        Setsockopt (ret (r_socket b)) (ret (r_setsockopt b));
        Bind (ret (r_socket b)) (atoi argv1 `mod` 65536) (ret (r_bind b));
        Listen (ret (r_socket b)) 10 (ret (r_listen b))],
       inl (ret (r_socket b), atoi argv1))).
  { unfold listen_on, setup_fails in *. by repeat case_bool_decide; try lia. }
  assert (Hport : sint 32 (atoi argv1) = atoi argv1).
  { apply sint_idem. lia. }
  split.
  - destruct (accept_loop_turns (Search.serve (ret (r_socket b)) (boot_pid b))
                (ret (r_socket b)) (search_serve_turn _ _) turns ())
      as (served & [] & Hloop & _).
    exists served. unfold Search.main. rewrite Hlisten, Hloop, bind_Some.
    change (c_lit "Search CGI process %d listening on port %d\n")
      with (c_lit "Search" ++ c_lit " CGI process %d listening on port %d\n").
    rewrite format_hello, Hport by compute_done. done.
  - intros G R.
    destruct (accept_loop_turns (Auth.serve (ret (r_socket b)) (boot_pid b))
                (ret (r_socket b)) (λ t g, auth_serve_turn _ _ t g) turns
                (srand (Z.lxor (boot_time b) (boot_pid b) `mod` 2 ^ 32)))
      as (served & g' & Hloop & _).
    exists served. unfold Auth.main. rewrite Hlisten, Hloop, bind_Some.
    change (c_lit "Auth CGI process %d listening on port %d\n")
      with (c_lit "Auth" ++ c_lit " CGI process %d listening on port %d\n").
    rewrite format_hello, Hport by compute_done. done.
Qed.

(** Started with a port in [0, 65535] written in decimal, after any
    white space and whatever follows the number as long as no further
    digit does, either server binds that port and announces it when the
    four start-up calls succeed. *)
Theorem decimal_port_bound_and_announced argv0 ws p rest b turns :
  ¬ setup_fails b →
  Forall (λ c, isspace c = true) ws →
  (∀ c, head rest = Some c → is_digit c = false) →
  0 ≤ p < 65536 →
  (∃ served,
     Search.main argv0 [ws ++ print_dec p ++ rest] b turns
     = Some ([Signal SIGTERM; Signal SIGINT;
              Socket (ret (r_socket b));
              Setsockopt (ret (r_socket b)) (ret (r_setsockopt b));
              Bind (ret (r_socket b)) p (ret (r_bind b));
              Listen (ret (r_socket b)) 10 (ret (r_listen b));
              Stdout (c_lit "Search CGI process "
                        ++ print_dec (sint 32 (boot_pid b))
                        ++ c_lit " listening on port "
                        ++ print_dec p ++ c_lit "\n")]
             ++ served, Accepting))
  ∧ (∀ (G : Type) (R : RandGen G), ∃ served,
       Auth.main (G := G) argv0 [ws ++ print_dec p ++ rest] b turns
       = Some ([Signal SIGTERM; Signal SIGINT;
                Srand (Z.lxor (boot_time b) (boot_pid b) `mod` 2 ^ 32);
                Socket (ret (r_socket b));
                Setsockopt (ret (r_socket b)) (ret (r_setsockopt b));
                Bind (ret (r_socket b)) p (ret (r_bind b));
                Listen (ret (r_socket b)) 10 (ret (r_listen b));
                Stdout (c_lit "Auth CGI process "
                          ++ print_dec (sint 32 (boot_pid b))
                          ++ c_lit " listening on port "
                          ++ print_dec p ++ c_lit "\n")]
               ++ served, Accepting)).
Proof.
  intros Hok Hws Hrest Hp.
  pose proof (startup_trace argv0 (ws ++ print_dec p ++ rest) b turns Hok)
    as Htrace.
  rewrite atoi_decimal in Htrace by (done || lia).
  rewrite sint_id in Htrace by lia.
  by rewrite Z.mod_small in Htrace by lia.
Qed.

Lemma decimal_port_bound_and_announced_witness :
  ∃ served,
    Search.main (c_lit "search") [c_lit "\n " ++ print_dec 8080 ++ c_lit "abc"]
      quiet_boot []
    = Some ([Signal SIGTERM; Signal SIGINT;
             Socket (ret (r_socket quiet_boot));
             Setsockopt (ret (r_socket quiet_boot))
               (ret (r_setsockopt quiet_boot));
             Bind (ret (r_socket quiet_boot)) 8080 (ret (r_bind quiet_boot));
             Listen (ret (r_socket quiet_boot)) 10 (ret (r_listen quiet_boot));
             Stdout (c_lit "Search CGI process "
                       ++ print_dec (sint 32 (boot_pid quiet_boot))
                       ++ c_lit " listening on port "
                       ++ print_dec 8080 ++ c_lit "\n")]
            ++ served, Accepting).
Proof.
  apply (decimal_port_bound_and_announced (c_lit "search") (c_lit "\n ") 8080
           (c_lit "abc") quiet_boot []).
  - unfold setup_fails, quiet_boot.
    cbn [ret r_socket r_setsockopt r_bind r_listen]. lia.
  - by repeat constructor.
  - intros c Hc. injection Hc as <-. reflexivity.
  - lia.
Defined.

(** A decimal port argument outside [0, 65535], anywhere in the range of
    [long], is not refused: when the four start-up calls succeed, either
    server binds the low 16 bits of the number, a port other than the
    one asked for, and announces the number converted to [int]. *)
Theorem port_out_of_range_wraps argv0 ws p rest b turns :
  ¬ setup_fails b →
  Forall (λ c, isspace c = true) ws →
  (∀ c, head rest = Some c → is_digit c = false) →
  - 2 ^ 63 ≤ p < 2 ^ 63 → ¬ (0 ≤ p < 65536) →
  ∃ bound,
    0 ≤ bound < 65536 ∧ bound ≠ p ∧ bound = p `mod` 65536 ∧
    (∃ served,
       Search.main argv0 [ws ++ print_dec p ++ rest] b turns
       = Some ([Signal SIGTERM; Signal SIGINT;
                Socket (ret (r_socket b));
                Setsockopt (ret (r_socket b)) (ret (r_setsockopt b));
                Bind (ret (r_socket b)) bound (ret (r_bind b));
                Listen (ret (r_socket b)) 10 (ret (r_listen b));
                Stdout (c_lit "Search CGI process "
                          ++ print_dec (sint 32 (boot_pid b))
                          ++ c_lit " listening on port "
                          ++ print_dec (sint 32 p) ++ c_lit "\n")]
               ++ served, Accepting))
    ∧ (∀ (G : Type) (R : RandGen G), ∃ served,
         Auth.main (G := G) argv0 [ws ++ print_dec p ++ rest] b turns
         = Some ([Signal SIGTERM; Signal SIGINT;
                  Srand (Z.lxor (boot_time b) (boot_pid b) `mod` 2 ^ 32);
                  Socket (ret (r_socket b));
                  Setsockopt (ret (r_socket b)) (ret (r_setsockopt b));
                  Bind (ret (r_socket b)) bound (ret (r_bind b));
                  Listen (ret (r_socket b)) 10 (ret (r_listen b));
                  Stdout (c_lit "Auth CGI process "
                            ++ print_dec (sint 32 (boot_pid b))
                            ++ c_lit " listening on port "
                            ++ print_dec (sint 32 p) ++ c_lit "\n")]
                 ++ served, Accepting)).
Proof.
  intros Hok Hws Hrest Hp Hout.
  pose proof (startup_trace argv0 (ws ++ print_dec p ++ rest) b turns Hok)
    as Htrace.
  rewrite atoi_decimal in Htrace by done.
  assert (Hlow : sint 32 p `mod` 65536 = p `mod` 65536).
  { pose proof (Z.div_mod (p + 2147483648) 4294967296 ltac:(lia)) as Hdm.
    replace (sint 32 p)
      with (p + (- 65536 * ((p + 2147483648) / 4294967296)) * 65536).
    - apply Z_mod_plus_full.
    - unfold sint. change (2 ^ (32 - 1)) with 2147483648.
      change (2 ^ 32) with 4294967296. lia. }
  rewrite Hlow in Htrace.
  pose proof (Z.mod_pos_bound p 65536 ltac:(lia)) as Hmod.
  exists (p `mod` 65536). split; [done|]. split; [lia|]. by split.
Qed.

Lemma port_out_of_range_wraps_witness :
  ∃ bound,
    0 ≤ bound < 65536 ∧ bound ≠ 70000 ∧ bound = 70000 `mod` 65536 ∧
    (∃ served,
       Search.main (c_lit "search") [[] ++ print_dec 70000 ++ []] quiet_boot []
       = Some ([Signal SIGTERM; Signal SIGINT;
                Socket (ret (r_socket quiet_boot));
                Setsockopt (ret (r_socket quiet_boot))
                  (ret (r_setsockopt quiet_boot));
                Bind (ret (r_socket quiet_boot)) bound (ret (r_bind quiet_boot));
                Listen (ret (r_socket quiet_boot)) 10
                  (ret (r_listen quiet_boot));
                Stdout (c_lit "Search CGI process "
                          ++ print_dec (sint 32 (boot_pid quiet_boot))
                          ++ c_lit " listening on port "
                          ++ print_dec (sint 32 70000) ++ c_lit "\n")]
               ++ served, Accepting)).
Proof.
  destruct (port_out_of_range_wraps (c_lit "search") [] 70000 []
              quiet_boot []) as (bound & Hb & Hne & Heq & Hsearch & _).
  - unfold setup_fails, quiet_boot.
    cbn [ret r_socket r_setsockopt r_bind r_listen]. lia.
  - constructor.
  - intros c Hc. discriminate.
  - lia.
  - lia.
  - by exists bound.
Defined.

(** ** Client sockets *)

Lemma startup_quiet p :
  Forall startup_event p →
  accepted p = [] ∧ answered p = [] ∧ closed p = [].
Proof.
  unfold accepted, answered, closed.
  induction 1 as [|e p He _ IH]; [done|].
  destruct IH as (Ha & Hs & Hc).
  destruct e; cbn [omap list_omap]; cbn in He; try done.
Qed.

Lemma sequential_no_signal server_socket ev sig :
  sequential server_socket ev → Signal sig ∉ ev.
Proof.
  induction 1 as [|turn rest Hturn _ IH]; [by apply not_elem_of_nil|].
  rewrite elem_of_app. intros [Hin | Hin]; [|done].
  destruct Hturn; repeat (apply elem_of_cons in Hin as [Hin | Hin]; [done|]);
    by apply elem_of_nil in Hin.
Qed.

Lemma one_at_a_time_nil : one_at_a_time [].
Proof. repeat split; [apply prefix_nil.. | simpl; lia]. Qed.

Lemma sequential_one_at_a_time server_socket ev :
  sequential server_socket ev →
  (∀ k, one_at_a_time (take k ev)) ∧
  closed ev = accepted ev ∧ answered ev = accepted ev.
Proof.
  induction 1 as [|turn rest Hturn _ (IHk & IHc & IHa)].
  { split; [|done]. intros k. rewrite take_nil. apply one_at_a_time_nil. }
  destruct Hturn as [fd Hfd | fd n bytes Hfd].
  - split.
    + intros [|k]; [apply one_at_a_time_nil|].
      specialize (IHk k). unfold one_at_a_time, accepted, answered, closed in *.
      cbn [app take omap list_omap].
      by rewrite bool_decide_eq_false_2 by lia.
    + unfold accepted, answered, closed in *. cbn [app omap list_omap].
      by rewrite bool_decide_eq_false_2 by lia.
  - split.
    + intros [|[|[|[|k]]]]; unfold one_at_a_time, accepted, answered, closed in *;
        cbn [app take omap list_omap];
        rewrite ?take_0; cbn [omap list_omap];
        rewrite ?bool_decide_eq_true_2 by lia.
      * repeat split; [apply prefix_nil.. | simpl; lia].
      * repeat split; [apply prefix_nil.. | simpl; lia].
      * repeat split; [apply prefix_nil.. | simpl; lia].
      * repeat split; [apply prefix_nil | done | simpl; lia].
      * destruct (IHk k) as (H1 & H2 & H3).
        repeat split; [by apply prefix_cons.. | simpl; lia].
    + unfold accepted, answered, closed in *. cbn [app omap list_omap].
      rewrite bool_decide_eq_true_2 by lia. by rewrite IHc, IHa.
Qed.

(** A trace made of start-up events followed by whole turns. *)
Lemma orderly_trace server_socket start served :
  Forall startup_event start → sequential server_socket served →
  (∀ k, one_at_a_time (take k (start ++ served))) ∧
  closed (start ++ served) = accepted (start ++ served) ∧
  answered (start ++ served) = accepted (start ++ served) ∧
  (∀ sig k, Signal sig ∈ take k (start ++ served) →
            sig = SIGTERM ∨ sig = SIGINT).
Proof.
  intros Hstart Hseq.
  destruct (sequential_one_at_a_time _ _ Hseq) as (Hk & Hc & Ha).
  destruct (startup_quiet _ Hstart) as (Hsa & Hss & Hsc).
  split; [|split; [|split]].
  - intros k. rewrite take_app.
    destruct (startup_quiet (take k start)) as (Hta & Hts & Htc);
      [by apply Forall_take|].
    specialize (Hk (k - length start)%nat).
    unfold one_at_a_time, accepted, answered, closed in *.
    rewrite !omap_app, Hta, Hts, Htc. done.
  - unfold accepted, closed in *. by rewrite !omap_app, Hsa, Hsc, Hc.
  - unfold accepted, answered in *. by rewrite !omap_app, Hsa, Hss, Ha.
  - intros sig k Hin. apply subseteq_take in Hin.
    apply elem_of_app in Hin as [Hin | Hin].
    + rewrite Forall_forall in Hstart. exact (Hstart _ Hin).
    + by apply (sequential_no_signal _ _ sig) in Hseq.
Qed.

Lemma listen_on_startup b argv1 :
  Forall startup_event (listen_on b argv1).1.
Proof.
  unfold listen_on. repeat case_bool_decide; by repeat constructor.
Qed.

Lemma search_main_trace argv0 args b turns :
  ∃ start served o,
    Search.main argv0 args b turns = Some (start ++ served, o) ∧
    Forall startup_event start ∧ sequential (ret (r_socket b)) served.
Proof.
  assert (Hsig : Forall startup_event [Signal SIGTERM; Signal SIGINT]).
  { constructor; [by left|]. constructor; [by right|]. by repeat constructor. }
  pose proof (listen_on_startup b) as Hlisten.
  unfold Search.main.
  destruct args as [|argv1 [|argv2 args]].
  - eexists _, [], _. rewrite app_nil_r. split; [done|].
    split; by repeat constructor.
  - specialize (Hlisten argv1).
    destruct (listen_on b argv1) as [ev [[server_socket port] | status]] eqn:Hl.
    + assert (server_socket = ret (r_socket b)) as ->.
      { unfold listen_on in Hl. repeat case_bool_decide; congruence. }
      destruct (accept_loop_turns (Search.serve (ret (r_socket b)) (boot_pid b))
                  (ret (r_socket b)) (search_serve_turn _ _) turns ())
        as (served & [] & Hloop & Hseq & _).
      rewrite Hloop, bind_Some.
      exists ([Signal SIGTERM; Signal SIGINT] ++ ev ++
              [Stdout (format (c_lit "Search CGI process %d listening on port %d\n")
                         [ArgInt (boot_pid b); ArgInt port])]), served, Accepting.
      split; [by rewrite <- !app_assoc|]. split; [|done].
      rewrite !Forall_app. by repeat split; [..|repeat constructor].
    + eexists _, [], _. rewrite app_nil_r. split; [done|].
      split; [|constructor]. by rewrite Forall_app.
  - eexists _, [], _. rewrite app_nil_r. split; [done|].
    split; by repeat constructor.
Qed.

Lemma auth_main_trace {G : Type} `{RandGen G} argv0 args b turns :
  ∃ start served o,
    Auth.main (G := G) argv0 args b turns = Some (start ++ served, o) ∧
    Forall startup_event start ∧ sequential (ret (r_socket b)) served.
Proof.
  assert (Hsig : Forall startup_event
            [Signal SIGTERM; Signal SIGINT;
             Srand (Z.lxor (boot_time b) (boot_pid b) `mod` 2 ^ 32)]).
  { constructor; [by left|]. constructor; [by right|]. by repeat constructor. }
  pose proof (listen_on_startup b) as Hlisten.
  unfold Auth.main.
  destruct args as [|argv1 [|argv2 args]].
  - eexists _, [], _. rewrite app_nil_r. split; [done|].
    split; by repeat constructor.
  - specialize (Hlisten argv1).
    destruct (listen_on b argv1) as [ev [[server_socket port] | status]] eqn:Hl.
    + assert (server_socket = ret (r_socket b)) as ->.
      { unfold listen_on in Hl. repeat case_bool_decide; congruence. }
      destruct (accept_loop_turns (Auth.serve (ret (r_socket b)) (boot_pid b))
                  (ret (r_socket b)) (λ t g, auth_serve_turn _ _ t g) turns
                  (srand (Z.lxor (boot_time b) (boot_pid b) `mod` 2 ^ 32)))
        as (served & g' & Hloop & Hseq & _).
      rewrite Hloop, bind_Some.
      exists ([Signal SIGTERM; Signal SIGINT;
               Srand (Z.lxor (boot_time b) (boot_pid b) `mod` 2 ^ 32)] ++ ev ++
              [Stdout (format (c_lit "Auth CGI process %d listening on port %d\n")
                         [ArgInt (boot_pid b); ArgInt port])]), served, Accepting.
      split; [by rewrite <- !app_assoc|]. split; [|done].
      rewrite !Forall_app. by repeat split; [..|repeat constructor].
    + eexists _, [], _. rewrite app_nil_r. split; [done|].
      split; [|constructor]. by rewrite Forall_app.
  - eexists _, [], _. rewrite app_nil_r. split; [done|].
    split; by repeat constructor.
Qed.

(** In every run of either server, whatever its arguments and whatever
    the system answers: every accepted connection, and no other socket,
    is sent one response and then closed, in the order of acceptance, and
    at every point of the run at most one client socket is open. *)
Theorem one_client_socket_at_a_time argv0 args b turns :
  (∃ ev o,
     Search.main argv0 args b turns = Some (ev, o) ∧
     (∀ k, one_at_a_time (take k ev)) ∧
     closed ev = accepted ev ∧ answered ev = accepted ev)
  ∧ (∀ (G : Type) (R : RandGen G), ∃ ev o,
       Auth.main (G := G) argv0 args b turns = Some (ev, o) ∧
       (∀ k, one_at_a_time (take k ev)) ∧
       closed ev = accepted ev ∧ answered ev = accepted ev).
Proof.
  split.
  - destruct (search_main_trace argv0 args b turns)
      as (start & served & o & Hmain & Hstart & Hseq).
    destruct (orderly_trace _ _ _ Hstart Hseq) as (Hk & Hc & Ha & _).
    by exists (start ++ served), o.
  - intros G R.
    destruct (auth_main_trace (G := G) argv0 args b turns)
      as (start & served & o & Hmain & Hstart & Hseq).
    destruct (orderly_trace _ _ _ Hstart Hseq) as (Hk & Hc & Ha & _).
    by exists (start ++ served), o.
Qed.
